(** * KeyMint Go client: transport contract and error classification

    A shallow embedding of [src/Index.go] and [src/Types.go].

    Go strings are byte sequences and are modelled by [string] (a list of
    8-bit [ascii]); Go's [int] is taken to be 64 bits wide and is modelled
    by [Z], with the range written out where the code depends on it.

    The client calls into [encoding/json], [net/http], [io] and [fmt].
    The parts of those packages the client's behaviour depends on, and of
    [strconv] and [unicode/utf8] beneath them, are modelled first, each in
    a module named after the package; the declarations of [src/Types.go]
    and the functions of [src/Index.go] follow, then the properties.

    What happens outside the program (whether a URL parses, what the
    network answers) is not computed: a function that reaches outside is a
    tree of questions to the environment, and every property is proved for
    every environment. *)

From Stdlib Require Import ZArith NArith List String Ascii Bool Lia.
From Stdlib Require Decimal DecimalString DecimalZ DecimalPos DecimalFacts.
Import ListNotations.

#[local] Set Warnings "-register-all".

#[local] Open Scope string_scope.
#[local] Open Scope Z_scope.

(* ------------------------------------------------------------------ *)
(** ** Bytes *)

Definition code (c : ascii) : N := N_of_ascii c.

Definition between (lo hi : N) (c : ascii) : bool :=
  ((lo <=? code c) && (code c <=? hi))%N.

Definition is_digit (c : ascii) : bool := between 48 57 c.

Definition is_hex (c : ascii) : bool :=
  is_digit c || between 97 102 c || between 65 70 c.

(** The value of a hexadecimal digit ([0] for any other byte). *)
Definition hex_val (c : ascii) : N :=
  if is_digit c then code c - 48
  else if between 97 102 c then code c - 87
  else if between 65 70 c then code c - 55
  else 0.

Definition hex_digit (n : N) : ascii :=
  if (n <? 10)%N then ascii_of_N (48 + n) else ascii_of_N (87 + n).

(** The quotation mark. *)
Definition DQ : ascii := "034"%char.

(** JSON texts are written below with apostrophes where they have
    quotation marks: [js s] is [s] with every apostrophe replaced by a
    quotation mark. *)
Fixpoint js (s : string) : string :=
  match s with
  | EmptyString => EmptyString
  | String c s' => String (if Ascii.eqb c "'" then DQ else c) (js s')
  end.

(* ------------------------------------------------------------------ *)
(** ** unicode/utf8 *)

Module utf8.

(** A continuation byte. *)
Definition cont (c : ascii) : bool := between 128 191 c.

(** [size s] is the length of the well-formed UTF-8 sequence [s] starts
    with, and [0] when [s] starts with none: this is when
    [utf8.DecodeRune] answers [(RuneError, 1)] on a non-empty input.
    Overlong forms, surrogates and values above U+10FFFF are rejected. *)
Definition size (s : string) : nat :=
  match s with
  | EmptyString => 0
  | String b0 r0 =>
    if (code b0 <? 128)%N then 1
    else
      match r0 with
      | EmptyString => 0
      | String b1 r1 =>
        if between 194 223 b0 then (if cont b1 then 2 else 0)
        else
          match r1 with
          | EmptyString => 0
          | String b2 r2 =>
            let second3 :=
              if (code b0 =? 224)%N then between 160 191 b1
              else if (code b0 =? 237)%N then between 128 159 b1
              else cont b1 in
            if between 224 239 b0 then (if second3 && cont b2 then 3 else 0)
            else
              match r2 with
              | EmptyString => 0
              | String b3 _ =>
                let second4 :=
                  if (code b0 =? 240)%N then between 144 191 b1
                  else if (code b0 =? 244)%N then between 128 143 b1
                  else cont b1 in
                if between 240 244 b0
                then (if second4 && cont b2 && cont b3 then 4 else 0)
                else 0
              end
          end
      end
  end%nat.

(** [utf8.AppendRune], for a rune that is neither a surrogate nor above
    U+10FFFF. *)
Definition encode (r : N) : string :=
  (if r <? 128 then String (ascii_of_N r) ""
   else if r <? 2048 then
     String (ascii_of_N (192 + r / 64))
       (String (ascii_of_N (128 + r mod 64)) "")
   else if r <? 65536 then
     String (ascii_of_N (224 + r / 4096))
       (String (ascii_of_N (128 + (r / 64) mod 64))
          (String (ascii_of_N (128 + r mod 64)) ""))
   else
     String (ascii_of_N (240 + r / 262144))
       (String (ascii_of_N (128 + (r / 4096) mod 64))
          (String (ascii_of_N (128 + (r / 64) mod 64))
             (String (ascii_of_N (128 + r mod 64)) ""))))%N.

(** U+FFFD, the replacement character. *)
Definition RuneError : N := 65533.

(** [valid k s]: after [k] bytes that continue a sequence already checked,
    [s] is well-formed UTF-8; [valid 0 s] is [utf8.ValidString(s)]. *)
Fixpoint valid (k : nat) (s : string) : bool :=
  match s with
  | EmptyString => match k with O => true | S _ => false end
  | String c s' =>
    match k with
    | S k' => valid k' s'
    | O => match size s with O => false | S n => valid n s' end
    end
  end.

(** The next [k] bytes are there and none of them is an ASCII byte, as
    after the first byte of a well-formed sequence of [k + 1] bytes. *)
Fixpoint continues (k : nat) (s : string) : bool :=
  match k with
  | O => true
  | S k' =>
    match s with
    | EmptyString => false
    | String c s' => (128 <=? code c)%N && continues k' s'
    end
  end.

End utf8.

(* ------------------------------------------------------------------ *)
(** ** strconv *)

Module strconv.

Definition int64_min : Z := - 2 ^ 63.
Definition int64_max : Z := 2 ^ 63 - 1.

Definition in_int64 (z : Z) : bool := (int64_min <=? z) && (z <=? int64_max).

(** [strconv.ParseInt(s, 10, 64)]: an optional sign and one or more decimal
    digits, the value within 64 bits. *)
Definition ParseInt (s : string) : option Z :=
  let parsed :=
    match s with
    | String "+" s' =>
      option_map Decimal.Pos (DecimalString.NilZero.uint_of_string s')
    | _ => DecimalString.NilZero.int_of_string s
    end in
  match parsed with
  | Some d => let z := Z.of_int d in if in_int64 z then Some z else None
  | None => None
  end.

(** [strconv.Itoa], which is also what [fmt]'s [%d] prints for an [int]. *)
Definition Itoa (z : Z) : string :=
  DecimalString.NilZero.string_of_int (Z.to_int z).

End strconv.

(* ------------------------------------------------------------------ *)
(** ** Go types and values

    [encoding/json] works by reflection: what it does with a value is
    decided by the value's type and by the tags of its struct fields.  The
    types that occur in [src/Types.go] are therefore described by terms of
    [GoType], a struct by the list of its fields with their JSON names and
    [omitempty] flags, and the values of a type [t] are the elements of
    [value t]. *)

Record StructField : Type := field {
  Name : string;        (* the Go name of the field *)
  JSONName : string;    (* the name in its [json:"..."] tag *)
  OmitEmpty : bool      (* whether the tag says [omitempty] *)
}.

Inductive GoType : Type :=
| TString
| TInt
| TBool
| TPtr (elem : GoType)
| TSlice (elem : GoType)
| TStruct (fields : list (StructField * GoType))
| TChan.   (* a kind [encoding/json] cannot serialise *)

(** A slice: [nil], or its elements together with the elements that lie in
    its backing array beyond its length, after a longer slice was cut
    short. *)
Inductive slice (A : Type) : Type :=
| nil_slice
| mk_slice (elems : list A) (spare : list A).

Arguments nil_slice {A}.
Arguments mk_slice {A} elems spare.

Fixpoint value (t : GoType) : Type :=
  match t with
  | TString => string
  | TInt => Z
  | TBool => bool
  | TPtr t' => option (value t')
  | TSlice t' => slice (value t')
  | TStruct fs =>
    (fix fields (fs : list (StructField * GoType)) : Type :=
       match fs with
       | [] => unit
       | (_, t') :: fs' => (value t' * fields fs')%type
       end) fs
  | TChan => unit
  end.

(** The values of a struct with fields [fs]: one component per field. *)
Definition value_fields (fs : list (StructField * GoType)) : Type :=
  value (TStruct fs).

(** The zero value of a type. *)
Fixpoint zero (t : GoType) : value t :=
  match t return value t with
  | TString => ""
  | TInt => 0
  | TBool => false
  | TPtr _ => None
  | TSlice _ => nil_slice
  | TStruct fs =>
    (fix fields (fs : list (StructField * GoType)) : value_fields fs :=
       match fs return value_fields fs with
       | [] => tt
       | (_, t') :: fs' => (zero t', fields fs')
       end) fs
  | TChan => tt
  end.

(** Go's [error] values, as far as the client meets them.  The errors of
    [net/http], [net/url] and [io] are known by their text only. *)
Inductive error : Type :=
| errorString (text : string)
| SyntaxError                        (* [*json.SyntaxError] *)
| UnmarshalTypeError (what : string) (* [*json.UnmarshalTypeError] *)
| UnsupportedTypeError.              (* [*json.UnsupportedTypeError] *)

(* ------------------------------------------------------------------ *)
(** ** encoding/json: JSON texts *)

Module json.

(** A JSON value.  A number keeps its literal, since what it decodes to
    depends on the Go type it is stored in. *)
Inductive Value : Type :=
| Null
| Bool (b : bool)
| Number (lit : string)
| Str (s : string)
| Array (elems : list Value)
| Object (members : list (string * Value)).

(** *** String literals *)

(** The UTF-16 surrogate halves. *)
Definition is_surrogate (r : N) : bool := ((55296 <=? r) && (r <? 57344))%N.
Definition is_high (r : N) : bool := ((55296 <=? r) && (r <? 56320))%N.
Definition is_low (r : N) : bool := ((56320 <=? r) && (r <? 57344))%N.

Definition u4 (a b c d : ascii) : N :=
  (((hex_val a * 16 + hex_val b) * 16 + hex_val c) * 16 + hex_val d)%N.

(** [unquote k s] is the string denoted by the body [s] of a string
    literal the scanner has accepted ([unquoteBytes]).  Escapes are
    replaced; a surrogate escape that is not the first half of a pair
    followed by the second becomes U+FFFD; a byte that does not begin a
    well-formed UTF-8 sequence becomes U+FFFD.  [k] counts the bytes still
    to copy of a sequence already checked. *)
Fixpoint unquote (k : nat) (s : string) : string :=
  match s with
  | EmptyString => EmptyString
  | String c s1 =>
    match k with
    | S k' => String c (unquote k' s1)
    | O =>
      if Ascii.eqb c "\" then
        match s1 with
        | EmptyString => EmptyString
        | String e s2 =>
          if Ascii.eqb e "u" then
            match s2 with
            | String h1 (String h2 (String h3 (String h4 s3))) =>
              let r := u4 h1 h2 h3 h4 in
              if is_surrogate r then
                match s3 with
                | String b (String u (String l1 (String l2 (String l3 (String l4 s4))))) =>
                  let r2 := u4 l1 l2 l3 l4 in
                  if Ascii.eqb b "\" && Ascii.eqb u "u" && is_high r && is_low r2
                  then utf8.encode (65536 + (r - 55296) * 1024 + (r2 - 56320))%N
                         ++ unquote 0 s4
                  else utf8.encode utf8.RuneError ++ unquote 0 s3
                | _ => utf8.encode utf8.RuneError ++ unquote 0 s3
                end
              else utf8.encode r ++ unquote 0 s3
            | _ => EmptyString
            end
          else
            let d :=
              if Ascii.eqb e "b" then ascii_of_N 8
              else if Ascii.eqb e "f" then ascii_of_N 12
              else if Ascii.eqb e "n" then ascii_of_N 10
              else if Ascii.eqb e "r" then ascii_of_N 13
              else if Ascii.eqb e "t" then ascii_of_N 9
              else e in
            String d (unquote 0 s2)
        end
      else if (code c <? 128)%N then String c (unquote 0 s1)
      else
        match utf8.size s with
        | O => utf8.encode utf8.RuneError ++ unquote 0 s1
        | S n => String c (unquote n s1)
        end
    end
  end.

(** *** The scanner *)

Inductive token : Type :=
| tokBeginObject | tokEndObject | tokBeginArray | tokEndArray | tokColon | tokComma
| tokString (s : string) | tokNumber (lit : string)
| tokTrue | tokFalse | tokNull.

(** Where the scanner is inside a number, as in [scanner.go]. *)
Inductive num_state := stateNeg | state0 | state1 | stateDot | stateDot0
                     | stateE | stateESign | stateE0.

Definition num_step (st : num_state) (c : ascii) : option num_state :=
  let e := Ascii.eqb c "e" || Ascii.eqb c "E" in
  let after_int :=
    if Ascii.eqb c "." then Some stateDot
    else if e then Some stateE else None in
  match st with
  | stateNeg =>
    if Ascii.eqb c "0" then Some state0
    else if between 49 57 c then Some state1 else None
  | state0 => after_int
  | state1 => if is_digit c then Some state1 else after_int
  | stateDot => if is_digit c then Some stateDot0 else None
  | stateDot0 =>
    if is_digit c then Some stateDot0 else if e then Some stateE else None
  | stateE =>
    if Ascii.eqb c "+" || Ascii.eqb c "-" then Some stateESign
    else if is_digit c then Some stateE0 else None
  | stateESign => if is_digit c then Some stateE0 else None
  | stateE0 => if is_digit c then Some stateE0 else None
  end.

(** The states a number may end in. *)
Definition num_final (st : num_state) : bool :=
  match st with
  | state0 | state1 | stateDot0 | stateE0 => true
  | _ => false
  end.

(** Where the scanner is inside a string literal: in plain text, after a
    backslash, or with [n] hexadecimal digits of a [\u] escape to come. *)
Inductive str_state := inString | inStringEsc | inStringEscU (n : nat).

Inductive lex_state : Type :=
| betweenTokens
| inStr (raw : string) (st : str_state)
| inNum (lit : string) (st : num_state)
| inLit (tok : token) (rest : string).

Definition is_space (c : ascii) : bool :=
  Ascii.eqb c " " || (code c =? 9)%N || (code c =? 13)%N || (code c =? 10)%N.

Definition snoc (s : string) (c : ascii) : string := s ++ String c "".

(** The scanner's move on byte [c] between two tokens: the state it
    enters and the token it emits, if any. *)
Definition begin_token (c : ascii) : option (lex_state * option token) :=
  if is_space c then Some (betweenTokens, None)
  else if Ascii.eqb c "{" then Some (betweenTokens, Some tokBeginObject)
  else if Ascii.eqb c "}" then Some (betweenTokens, Some tokEndObject)
  else if Ascii.eqb c "[" then Some (betweenTokens, Some tokBeginArray)
  else if Ascii.eqb c "]" then Some (betweenTokens, Some tokEndArray)
  else if Ascii.eqb c ":" then Some (betweenTokens, Some tokColon)
  else if Ascii.eqb c "," then Some (betweenTokens, Some tokComma)
  else if Ascii.eqb c DQ then Some (inStr "" inString, None)
  else if Ascii.eqb c "-" then Some (inNum "-" stateNeg, None)
  else if Ascii.eqb c "0" then Some (inNum "0" state0, None)
  else if between 49 57 c then Some (inNum (String c "") state1, None)
  else if Ascii.eqb c "t" then Some (inLit tokTrue "rue", None)
  else if Ascii.eqb c "f" then Some (inLit tokFalse "alse", None)
  else if Ascii.eqb c "n" then Some (inLit tokNull "ull", None)
  else None.

Definition emit (t : option token) (acc : list token) : list token :=
  match t with Some t => t :: acc | None => acc end.

(** A byte that ends the number before it: one that is a token of its
    own and that no state of a number accepts. *)
Definition ends_number (c : ascii) (t : token) : Prop :=
  begin_token c = Some (betweenTokens, Some t) /\
  forall st, num_step st c = None.

(** [scan st s acc] reads [s] byte by byte from state [st]; [acc] holds
    the tokens read so far, last first.  [None] is a syntax error. *)
Fixpoint scan (st : lex_state) (s : string) (acc : list token)
  : option (list token) :=
  match s with
  | EmptyString =>
    match st with
    | betweenTokens => Some (rev acc)
    | inNum lit ns =>
      if num_final ns then Some (rev (tokNumber lit :: acc)) else None
    | _ => None
    end
  | String c s' =>
    match st with
    | betweenTokens =>
      match begin_token c with
      | Some (st', t) => scan st' s' (emit t acc)
      | None => None
      end
    | inStr raw inString =>
      if Ascii.eqb c DQ then
        scan betweenTokens s' (tokString (unquote 0 raw) :: acc)
      else if Ascii.eqb c "\" then scan (inStr (snoc raw c) inStringEsc) s' acc
      else if (code c <? 32)%N then None
      else scan (inStr (snoc raw c) inString) s' acc
    | inStr raw inStringEsc =>
      if Ascii.eqb c "u" then scan (inStr (snoc raw c) (inStringEscU 4)) s' acc
      else if Ascii.eqb c "b" || Ascii.eqb c "f" || Ascii.eqb c "n"
              || Ascii.eqb c "r" || Ascii.eqb c "t" || Ascii.eqb c "\"
              || Ascii.eqb c "/" || Ascii.eqb c DQ
      then scan (inStr (snoc raw c) inString) s' acc
      else None
    | inStr raw (inStringEscU n) =>
      if is_hex c then
        match n with
        | S (S n') => scan (inStr (snoc raw c) (inStringEscU (S n'))) s' acc
        | _ => scan (inStr (snoc raw c) inString) s' acc
        end
      else None
    | inNum lit ns =>
      match num_step ns c with
      | Some ns' => scan (inNum (snoc lit c) ns') s' acc
      | None =>
        if num_final ns then
          match begin_token c with
          | Some (st', t) => scan st' s' (emit t (tokNumber lit :: acc))
          | None => None
          end
        else None
      end
    | inLit tok EmptyString => None
    | inLit tok (String x rest) =>
      if Ascii.eqb c x then
        match rest with
        | EmptyString => scan betweenTokens s' (tok :: acc)
        | _ => scan (inLit tok rest) s' acc
        end
      else None
    end
  end.

(** *** The grammar *)

(** An array or object that is still open. *)
Inductive frame : Type :=
| inArray (elems : list Value)
| inObject (members : list (string * Value)) (key : string).

Inductive parse_state : Type :=
| beginValue            (* a value must follow *)
| beginValueOrEmpty     (* after [[]: a value or []] *)
| beginStringOrEmpty    (* after [{]: a key or [}] *)
| beginString           (* after [,] in an object: a key *)
| objectKey             (* after a key: [:] *)
| endValue              (* after a value inside an array or object *)
| endTop (v : Value).   (* after the top-level value *)

(** The scanner refuses more than this many open arrays and objects. *)
Definition maxNestingDepth : N := 10000.

(** A value is complete: it goes into the innermost open frame. *)
Definition close_value (v : Value) (stack : list frame)
  : parse_state * list frame :=
  match stack with
  | [] => (endTop v, [])
  | inArray els :: st => (endValue, inArray (v :: els) :: st)
  | inObject ms k :: st => (endValue, inObject ((k, v) :: ms) k :: st)
  end.

Definition push (f : frame) (ps : parse_state) (stack : list frame)
  : option (parse_state * list frame) :=
  if (N.of_nat (List.length stack) <? maxNestingDepth)%N then Some (ps, f :: stack) else None.

(** One token from a state where a value may begin. *)
Definition value_token (t : token) (stack : list frame)
  : option (parse_state * list frame) :=
  match t with
  | tokBeginObject => push (inObject [] "") beginStringOrEmpty stack
  | tokBeginArray => push (inArray []) beginValueOrEmpty stack
  | tokString s => Some (close_value (Str s) stack)
  | tokNumber lit => Some (close_value (Number lit) stack)
  | tokTrue => Some (close_value (Bool true) stack)
  | tokFalse => Some (close_value (Bool false) stack)
  | tokNull => Some (close_value Null stack)
  | _ => None
  end.

Definition key_token (t : token) (stack : list frame)
  : option (parse_state * list frame) :=
  match t, stack with
  | tokString k, inObject ms _ :: st => Some (objectKey, inObject ms k :: st)
  | _, _ => None
  end.

Definition step (ps : parse_state) (stack : list frame) (t : token)
  : option (parse_state * list frame) :=
  match ps with
  | beginValue => value_token t stack
  | beginValueOrEmpty =>
    match t, stack with
    | tokEndArray, inArray _ :: st => Some (close_value (Array []) st)
    | _, _ => value_token t stack
    end
  | beginStringOrEmpty =>
    match t, stack with
    | tokEndObject, inObject _ _ :: st => Some (close_value (Object []) st)
    | _, _ => key_token t stack
    end
  | beginString => key_token t stack
  | objectKey =>
    match t with tokColon => Some (beginValue, stack) | _ => None end
  | endValue =>
    match t, stack with
    | tokComma, inArray _ :: _ => Some (beginValue, stack)
    | tokComma, inObject _ _ :: _ => Some (beginString, stack)
    | tokEndArray, inArray els :: st => Some (close_value (Array (rev els)) st)
    | tokEndObject, inObject ms _ :: st =>
      Some (close_value (Object (rev ms)) st)
    | _, _ => None
    end
  | endTop _ => None
  end.

Fixpoint parse_tokens (ps : parse_state) (stack : list frame)
  (ts : list token) : option Value :=
  match ts with
  | [] => match ps with endTop v => Some v | _ => None end
  | t :: ts' =>
    match step ps stack t with
    | Some (ps', stack') => parse_tokens ps' stack' ts'
    | None => None
    end
  end.

(** [parse data] is the value the JSON text [data] denotes, and [None]
    when [data] is not one JSON text ([checkValid] fails). *)
Definition parse (data : string) : option Value :=
  match scan betweenTokens data [] with
  | Some ts => parse_tokens beginValue [] ts
  | None => None
  end.

(** *** Decoding into a Go value *)

(** Only the first error met is kept ([decodeState.saveError]). *)
Definition saveError (e : error) (saved : option error) : option error :=
  match saved with
  | None => Some e
  | Some _ => saved
  end.

(** How [UnmarshalTypeError] names a JSON value that does not fit. *)
Definition describe (j : Value) : string :=
  match j with
  | Null => "null"
  | Bool _ => "bool"
  | Number _ => "number"
  | Str _ => "string"
  | Array _ => "array"
  | Object _ => "object"
  end.

(** [foldName]: two keys are the same up to case when their folded forms
    are equal.  ASCII letters fold to upper case; the Kelvin sign U+212A
    folds to [K] and the long s U+017F to [S]; no other character folds to
    an ASCII one, and such characters are left as they are.  The test is
    therefore exact against names made of ASCII characters, as all names in
    [src/Types.go] are. *)
Fixpoint foldName (s : string) : string :=
  match s with
  | EmptyString => EmptyString
  | String c s1 =>
    if between 97 122 c then String (ascii_of_N (code c - 32)) (foldName s1)
    else
      match s1 with
      | String b1 s2 =>
        if ((code c =? 197) && (code b1 =? 191))%N then String "S" (foldName s2)
        else
          match s2 with
          | String b2 s3 =>
            if ((code c =? 226) && (code b1 =? 132) && (code b2 =? 170))%N
            then String "K" (foldName s3)
            else String c (foldName s1)
          | EmptyString => String c (foldName s1)
          end
      | EmptyString => String c EmptyString
      end
  end.

Fixpoint index_where (p : StructField -> bool)
  (fs : list (StructField * GoType)) : option nat :=
  match fs with
  | [] => None
  | (f, _) :: fs' =>
    if p f then Some O else option_map S (index_where p fs')
  end.

(** The field a key is stored in: the one with that JSON name, else the
    first one whose name equals the key up to case. *)
Definition find_field (key : string) (fs : list (StructField * GoType))
  : option nat :=
  match index_where (fun f => String.eqb (JSONName f) key) fs with
  | Some i => Some i
  | None =>
    index_where (fun f => String.eqb (foldName (JSONName f)) (foldName key)) fs
  end.

(** Decoding one JSON value into a variable of type [t]: from the
    variable's value and the error saved so far, to its new value and the
    error saved after. *)
Definition store (t : GoType) : Type :=
  value t -> option error -> value t * option error.

Definition decoder : Type := forall t : GoType, store t.

(** Apply [dec] to field number [i] of a struct. *)
Fixpoint decode_field (dec : decoder) (fs : list (StructField * GoType))
  (i : nat) {struct fs} : store (TStruct fs) :=
  match fs return store (TStruct fs) with
  | [] => fun v saved => (v, saved)
  | (_, t) :: fs' =>
    fun v saved =>
      match i with
      | O => let '(x, saved') := dec t (fst v) saved in ((x, snd v), saved')
      | S i' =>
        let '(r, saved') := decode_field dec fs' i' (snd v) saved in
        ((fst v, r), saved')
      end
  end.

(** The members of an object, in the order they are written, each stored
    in the field its key selects; a key that selects none is skipped. *)
Fixpoint decode_members (fs : list (StructField * GoType))
  (ms : list (string * decoder)) : store (TStruct fs) :=
  fun v saved =>
    match ms with
    | [] => (v, saved)
    | (key, dec) :: ms' =>
      match find_field key fs with
      | Some i =>
        let '(v', saved') := decode_field dec fs i v saved in
        decode_members fs ms' v' saved'
      | None => decode_members fs ms' v saved
      end
    end.

(** The elements of an array.  Element [i] is decoded into what the slice
    holds at index [i]: an element it has ([old]), else one its backing
    array still holds beyond its length ([spare]), else a zero value.
    Returns the decoded elements and what remains beyond them. *)
Fixpoint decode_elems {A : Type} (z : A)
  (ds : list (A -> option error -> A * option error))
  (old spare : list A) (saved : option error)
  : list A * list A * option error :=
  match ds with
  | [] => ([], (old ++ spare)%list, saved)
  | d :: ds' =>
    let '(start, old', spare') :=
      match old, spare with
      | x :: old', _ => (x, old', spare)
      | [], x :: spare' => (x, [], spare')
      | [], [] => (z, [], [])
      end in
    let '(x, saved1) := d start saved in
    let '(xs, rest, saved2) := decode_elems z ds' old' spare' saved1 in
    (x :: xs, rest, saved2)
  end.

Definition mismatch {t : GoType} (j : Value) : store t :=
  fun v saved => (v, saveError (UnmarshalTypeError (describe j)) saved).

(** [decode j t]: what [decodeState.value] does with the JSON value [j]
    and a variable of type [t].  A value that does not fit leaves the
    variable as it is and saves an error; decoding goes on with what
    follows.  [null] clears a pointer or a slice and leaves anything else
    alone.  A [nil] pointer is made to point to a zero value before the
    value is decoded into what it points to. *)
Fixpoint decode (j : Value) {struct j} : decoder :=
  fix at_type (t : GoType) {struct t} : store t :=
    match t return store t with
    | TString =>
      match j with
      | Null => fun v saved => (v, saved)
      | Str s => fun _ saved => (s, saved)
      | _ => mismatch j
      end
    | TInt =>
      match j with
      | Null => fun v saved => (v, saved)
      | Number lit =>
        fun v saved =>
          match strconv.ParseInt lit with
          | Some n => (n, saved)
          | None => (v, saveError (UnmarshalTypeError ("number " ++ lit)) saved)
          end
      | _ => mismatch j
      end
    | TBool =>
      match j with
      | Null => fun v saved => (v, saved)
      | Bool b => fun _ saved => (b, saved)
      | _ => mismatch j
      end
    | TPtr t' =>
      match j with
      | Null => fun _ saved => (None, saved)
      | _ =>
        fun v saved =>
          let target := match v with Some x => x | None => zero t' end in
          let '(x, saved') := at_type t' target saved in
          (Some x, saved')
      end
    | TSlice t' =>
      match j with
      | Null => fun _ saved => (nil_slice, saved)
      | Array [] => fun _ saved => (mk_slice [] [], saved)
      | Array js =>
        fun v saved =>
          let '(old, spare) :=
            match v with
            | nil_slice => ([], [])
            | mk_slice old spare => (old, spare)
            end in
          let '(xs, rest, saved') :=
            decode_elems (zero t') (map (fun j' => decode j' t') js)
              old spare saved in
          (mk_slice xs rest, saved')
      | _ => mismatch j
      end
    | TStruct fs =>
      match j with
      | Null => fun v saved => (v, saved)
      | Object ms =>
        decode_members fs (map (fun '(key, j') => (key, decode j')) ms)
      | _ => mismatch j
      end
    | TChan =>
      match j with
      | Null => fun v saved => (v, saved)
      | _ => mismatch j
      end
    end.

(** [json.Unmarshal(data, &v)] for a variable [v] of type [t]: the new
    value of [v] and the error returned.  A text that is not valid JSON
    is refused before anything is stored. *)
Definition Unmarshal (t : GoType) (data : string) (v : value t)
  : value t * option error :=
  match parse data with
  | None => (v, Some SyntaxError)
  | Some j => decode j t v None
  end.

(** *** Encoding a Go value *)

(** [isEmptyValue]: what an [omitempty] field has to hold to be left out.
    A pointer is empty when it is [nil], whatever it would point to. *)
Definition isEmptyValue (t : GoType) : value t -> bool :=
  match t return value t -> bool with
  | TString => fun v => String.eqb v ""
  | TInt => fun v => Z.eqb v 0
  | TBool => fun v => negb v
  | TPtr _ => fun v => match v with None => true | Some _ => false end
  | TSlice _ =>
    fun v =>
      match v with
      | nil_slice => true
      | mk_slice [] _ => true
      | mk_slice (_ :: _) _ => false
      end
  | TStruct _ => fun _ => false
  | TChan => fun _ => false
  end.

(** All results, or [None] if one is missing. *)
Fixpoint sequence {A : Type} (l : list (option A)) : option (list A) :=
  match l with
  | [] => Some []
  | None :: _ => None
  | Some x :: l' => option_map (cons x) (sequence l')
  end.

(** The JSON value a Go value is written as; [None] when a value of a
    kind that cannot be serialised is reached.  A struct is written as an
    object with one member per field in the order of declaration, without
    the [omitempty] fields that are empty. *)
Fixpoint encode (t : GoType) : value t -> option Value :=
  match t return value t -> option Value with
  | TString => fun v => Some (Str v)
  | TInt => fun v => Some (Number (strconv.Itoa v))
  | TBool => fun v => Some (Bool v)
  | TPtr t' =>
    fun v => match v with None => Some Null | Some x => encode t' x end
  | TSlice t' =>
    fun v =>
      match v with
      | nil_slice => Some Null
      | mk_slice xs _ => option_map Array (sequence (map (encode t') xs))
      end
  | TStruct fs =>
    fun v =>
      option_map Object
        ((fix members (fs : list (StructField * GoType))
            : value_fields fs -> option (list (string * Value)) :=
            match fs return value_fields fs -> option (list (string * Value))
            with
            | [] => fun _ => Some []
            | (f, t') :: fs' =>
              fun v =>
                if OmitEmpty f && isEmptyValue t' (fst v)
                then members fs' (snd v)
                else
                  match encode t' (fst v), members fs' (snd v) with
                  | Some j, Some ms => Some ((JSONName f, j) :: ms)
                  | _, _ => None
                  end
            end) fs v)
  | TChan => fun _ => None
  end.

(** A byte [appendString] copies as it is: printable ASCII other than the
    quote, the backslash and the three characters escaped for HTML. *)
Definition htmlSafe (c : ascii) : bool :=
  between 32 127 c
  && negb (Ascii.eqb c DQ || Ascii.eqb c "\" || Ascii.eqb c "<"
           || Ascii.eqb c ">" || Ascii.eqb c "&").

Definition escape_byte (c : ascii) : string :=
  if Ascii.eqb c DQ || Ascii.eqb c "\" then String "\" (String c "")
  else if (code c =? 8)%N then "\b"
  else if (code c =? 12)%N then "\f"
  else if (code c =? 10)%N then "\n"
  else if (code c =? 13)%N then "\r"
  else if (code c =? 9)%N then "\t"
  else "\u00" ++ String (hex_digit (code c / 16))
                   (String (hex_digit (code c mod 16)) "").

(** The body of the string literal for [s] ([appendString] with HTML
    escaping, as [json.Marshal] calls it; Go 1.22 and later, which write
    [\b] and [\f] where earlier releases wrote [\u0008] and [\u000c]).  A
    byte that does not begin a well-formed UTF-8 sequence is written
    the escape of U+FFFD; U+2028 and U+2029 are escaped.  [k] counts the bytes still
    to copy of a sequence already checked. *)
Fixpoint escape (k : nat) (s : string) : string :=
  match s with
  | EmptyString => EmptyString
  | String c s1 =>
    match k with
    | S k' => String c (escape k' s1)
    | O =>
      if (code c <? 128)%N then
        (if htmlSafe c then String c "" else escape_byte c) ++ escape 0 s1
      else
        let other :=
          match utf8.size s with
          | O => "\" ++ "ufffd" ++ escape 0 s1
          | S n => String c (escape n s1)
          end in
        match s1 with
        | String b1 (String b2 s3) =>
          if ((code c =? 226) && (code b1 =? 128))%N && between 168 169 b2
          then "\u202" ++ String (hex_digit (code b2 mod 16)) (escape 0 s3)
          else other
        | _ => other
        end
    end
  end.

Definition quote (s : string) : string :=
  String DQ (escape 0 s ++ String DQ "").

(** What a string written by [escape] is read back as by [unquote]. *)
Definition readback (s : string) : string := unquote 0 (escape 0 s).

(** The compact text of a JSON value. *)
Fixpoint text (j : Value) : string :=
  match j with
  | Null => "null"
  | Bool true => "true"
  | Bool false => "false"
  | Number lit => lit
  | Str s => quote s
  | Array js => "[" ++ String.concat "," (map text js) ++ "]"
  | Object ms =>
    "{" ++ String.concat ","
             (map (fun '(key, j') => quote key ++ ":" ++ text j') ms) ++ "}"
  end.

(** [json.Marshal(v)] for a value [v] of type [t]. *)
Definition Marshal (t : GoType) (v : value t) : string * option error :=
  match encode t v with
  | Some j => (text j, None)
  | None => ("", Some UnsupportedTypeError)
  end.

(** *** What is written, read back

    The vocabulary of the round trips proved below: the tokens the text
    of a value is made of, the value the parser builds from them, and the
    types and values that [Unmarshal] recovers from what [Marshal] wrote. *)

(** A JSON value as it reads back: every string in it as [readback] gives
    it. *)
Fixpoint read (j : Value) : Value :=
  match j with
  | Str s => Str (readback s)
  | Array js => Array (map read js)
  | Object ms => Object (map (fun '(key, j') => (readback key, read j')) ms)
  | _ => j
  end.

(** The tokens of a list of items, commas between them. *)
Fixpoint join (ls : list (list token)) : list token :=
  match ls with
  | [] => []
  | x :: ls' =>
    match ls' with
    | [] => x
    | _ :: _ => x ++ tokComma :: join ls'
    end
  end.

(** The tokens the compact text of a value is made of. *)
Fixpoint tokens (j : Value) : list token :=
  match j with
  | Null => [tokNull]
  | Bool true => [tokTrue]
  | Bool false => [tokFalse]
  | Number lit => [tokNumber lit]
  | Str s => [tokString (readback s)]
  | Array js => tokBeginArray :: join (map tokens js) ++ [tokEndArray]
  | Object ms =>
    tokBeginObject
      :: join (map (fun '(key, j') =>
                      tokString (readback key) :: tokColon :: tokens j') ms)
      ++ [tokEndObject]
  end.

(** Every number in the value is an integer in decimal form, as [encode]
    writes numbers. *)
Fixpoint written (j : Value) : Prop :=
  match j with
  | Number lit => exists n, lit = strconv.Itoa n
  | Array js => fold_right (fun j' P => written j' /\ P) True js
  | Object ms => fold_right (fun m P => written (snd m) /\ P) True ms
  | _ => True
  end.

(** How deep arrays and objects are nested in a value. *)
Fixpoint depth (j : Value) : nat :=
  match j with
  | Array js => S (fold_right (fun j' d => Nat.max (depth j') d) O js)
  | Object ms => S (fold_right (fun m d => Nat.max (depth (snd m)) d) O ms)
  | _ => O
  end.

(** What follows a number ends it: the end of the text, or a byte no
    state of a number accepts. *)
Definition delimited (rest : string) : Prop :=
  match rest with
  | EmptyString => True
  | String c _ => forall st, num_step st c = None
  end.

(** The scanner reads the text of [x] as the tokens of [x], whatever
    comes before and after. *)
Definition scans {A : Type} (txt : A -> string) (toks : A -> list token)
  (x : A) : Prop :=
  forall rest acc, delimited rest ->
    scan betweenTokens (txt x ++ rest) acc =
    scan betweenTokens rest (rev (toks x) ++ acc).

(** The arrays and objects open in [stack], and those of [j] inside them,
    stay within the nesting limit. *)
Definition fits (stack : list frame) (j : Value) : Prop :=
  (N.of_nat (List.length stack + depth j) <= maxNestingDepth)%N.

(** Where a value may begin, the parser reads the tokens of [j] as the
    one value [read j]. *)
Definition parses (j : Value) : Prop :=
  forall ps stack ts,
    ps = beginValue \/ ps = beginValueOrEmpty ->
    fits stack j ->
    parse_tokens ps stack (tokens j ++ ts)%list =
    parse_tokens (fst (close_value (read j) stack))
      (snd (close_value (read j) stack)) ts.

(** A type a pointer can point to and still be told from [nil] once
    written: one whose values are never written as [null]. *)
Definition never_null (t : GoType) : bool :=
  match t with
  | TString | TInt | TBool | TStruct _ => true
  | _ => false
  end.

Definition is_pointer (t : GoType) : bool :=
  match t with TPtr _ => true | _ => false end.

Fixpoint distinct (names : list string) : bool :=
  match names with
  | [] => true
  | n :: names' => negb (existsb (String.eqb n) names') && distinct names'
  end.

(** How deep slices and structs are nested in a type. *)
Fixpoint nesting (t : GoType) : nat :=
  match t with
  | TPtr t' => nesting t'
  | TSlice t' => S (nesting t')
  | TStruct fs =>
    S ((fix fields (fs : list (StructField * GoType)) : nat :=
          match fs with
          | [] => O
          | (_, t') :: fs' => Nat.max (nesting t') (fields fs')
          end) fs)
  | _ => O
  end.

(** The types whose values are recovered from what is written for them:
    a pointer points to something that is never written as [null]; the
    JSON names of a struct are distinct and are written without escapes;
    only pointers are [omitempty]; and no part is of a kind that cannot be
    serialised.  All the types of [src/Types.go] are such. *)
Fixpoint representable (t : GoType) : bool :=
  match t with
  | TString | TInt | TBool => true
  | TPtr t' => never_null t' && representable t'
  | TSlice t' => representable t'
  | TStruct fs =>
    distinct (map (fun p => JSONName (fst p)) fs)
    && (fix fields (fs : list (StructField * GoType)) : bool :=
          match fs with
          | [] => true
          | (f, t') :: fs' =>
            String.eqb (readback (JSONName f)) (JSONName f)
            && implb (OmitEmpty f) (is_pointer t')
            && representable t' && fields fs'
          end) fs
  | TChan => false
  end.

(** The values that are recovered from what is written for them: strings
    are well-formed UTF-8, integers are in the range of [int], and a slice
    has nothing in its backing array beyond its length. *)
Fixpoint canonical (t : GoType) : value t -> bool :=
  match t return value t -> bool with
  | TString => fun v => utf8.valid 0 v
  | TInt => fun v => strconv.in_int64 v
  | TBool => fun _ => true
  | TPtr t' =>
    fun v => match v with None => true | Some x => canonical t' x end
  | TSlice t' =>
    fun v =>
      match v with
      | nil_slice => true
      | mk_slice xs [] => forallb (canonical t') xs
      | mk_slice _ (_ :: _) => false
      end
  | TStruct fs =>
    (fix fields (fs : list (StructField * GoType)) : value_fields fs -> bool :=
       match fs return value_fields fs -> bool with
       | [] => fun _ => true
       | (_, t') :: fs' =>
         fun v => canonical t' (fst v) && fields fs' (snd v)
       end) fs
  | TChan => fun _ => false
  end.

(** What is written for a canonical value of type [t] decodes, into a zero
    value, to that value, and saves no error. *)
Definition recovered (t : GoType) : Prop :=
  representable t = true ->
  forall (v : value t) (j : Value) (saved : option error),
    canonical t v = true ->
    encode t v = Some j ->
    decode (read j) t (zero t) saved = (v, saved).

End json.

(* ------------------------------------------------------------------ *)
(** ** fmt *)

Module fmt.

(** [fmt.Sprintf(format, s)] for a format that ends in its only verb,
    [%s]; [prefix] is the format without the verb. *)
Definition Sprintf_s (prefix : string) (s : string) : string := prefix ++ s.

(** The verb [%d] applied to an [int]. *)
Definition d (n : Z) : string := strconv.Itoa n.

End fmt.

(* ------------------------------------------------------------------ *)
(** ** net/http and the outside world

    What a call does outside the program is not computed but asked of the
    environment: whether [http.NewRequest] accepts a method and a URL, what
    comes back when a request is sent, and how an error of [encoding/json]
    words itself.  A computation is a tree of such questions ([Prog]);
    [run] answers them from a [World] and records every request sent. *)

Inductive result (A : Type) : Type :=
| ok (a : A)
| failed (err : error).

Arguments ok {A} a.
Arguments failed {A} err.

Module http.

Record Client : Type := { Timeout : Z }.   (* a [time.Duration], in ns *)

(** A request: its URL is kept as the string [http.NewRequest] was given;
    [AddedQuery] holds the parameters the handler added to the URL's query
    ([None]: the query was not touched). *)
Record Request : Type := {
  Method : string;
  URL : string;
  AddedQuery : option (list (string * string));
  Header : list (string * string);
  Payload : option string
}.

(** A response: [Body] is what reading the body to its end gives, the
    bytes read and the error that stopped the reading, if any. *)
Record Response : Type := {
  StatusCode : Z;
  Body : string * option error
}.

(** [req.Header.Set(key, value)]. *)
Definition Header_Set (req : Request) (key val : string) : Request :=
  {| Method := Method req;
     URL := URL req;
     AddedQuery := AddedQuery req;
     Header :=
       (key, val)
         :: filter (fun kv => negb (String.eqb (fst kv) key)) (Header req);
     Payload := Payload req |}.

(** [q := req.URL.Query(); q.Add(key, value) ...; req.URL.RawQuery =
    q.Encode()] for the keys and values of [params]. *)
Definition AddQuery (req : Request) (params : list (string * string))
  : Request :=
  {| Method := Method req;
     URL := URL req;
     AddedQuery := Some params;
     Header := Header req;
     Payload := Payload req |}.

End http.

Module io.

Definition ReadAll (body : string * option error) : string * option error :=
  body.

End io.

Inductive Prog (A : Type) : Type :=
| Ret (a : A)
| CheckRequest (method url : string) (k : option error -> Prog A)
| RoundTrip (req : http.Request) (k : result http.Response -> Prog A)
| ErrorText (err : error) (k : string -> Prog A).

Arguments Ret {A} a.
Arguments CheckRequest {A} method url k.
Arguments RoundTrip {A} req k.
Arguments ErrorText {A} err k.

Fixpoint bind {A B : Type} (p : Prog A) (f : A -> Prog B) : Prog B :=
  match p with
  | Ret a => f a
  | CheckRequest method url k => CheckRequest method url (fun r => bind (k r) f)
  | RoundTrip req k => RoundTrip req (fun r => bind (k r) f)
  | ErrorText err k => ErrorText err (fun s => bind (k s) f)
  end.

Notation "x <- p ;; q" := (bind p (fun x => q))
  (at level 61, p at next level, right associativity).

(** [http.NewRequest(method, url, body)]. *)
Definition http_NewRequest (method url : string) (body : option string)
  : Prog (result http.Request) :=
  CheckRequest method url
    (fun r =>
       match r with
       | Some err => Ret (failed err)
       | None =>
         Ret (ok {| http.Method := method;
                    http.URL := url;
                    http.AddedQuery := None;
                    http.Header := [];
                    http.Payload := body |})
       end).

(** [client.Do(req)]. *)
Definition http_Do (client : http.Client) (req : http.Request)
  : Prog (result http.Response) :=
  RoundTrip req (fun r => Ret r).

(** [fmt.Sprintf(format, err)] for a format that ends in its only verb,
    [%v]; [prefix] is the format without the verb. *)
Definition Sprintf_v (prefix : string) (err : error) : Prog string :=
  match err with
  | errorString text => Ret (prefix ++ text)
  | _ => ErrorText err (fun text => Ret (prefix ++ text))
  end.

Record World : Type := {
  check_request : string -> string -> option error;
  round_trip : http.Request -> result http.Response;
  error_text : error -> string
}.

(** One exchange with the network: the request sent and what came back. *)
Definition exchange : Type := (http.Request * result http.Response)%type.

Fixpoint run {A : Type} (w : World) (p : Prog A) : A * list exchange :=
  match p with
  | Ret a => (a, [])
  | CheckRequest method url k => run w (k (check_request w method url))
  | RoundTrip req k =>
    let '(a, log) := run w (k (round_trip w req)) in
    (a, (req, round_trip w req) :: log)
  | ErrorText err k => run w (k (error_text w err))
  end.

(* ------------------------------------------------------------------ *)
(** * src/Types.go *)

(** A required field, [Name T `json:"tag"`]. *)
Definition required (name tag : string) (t : GoType) : StructField * GoType :=
  (field name tag false, t).

(** An optional field, [Name *T `json:"tag,omitempty"`]. *)
Definition optional (name tag : string) (t : GoType) : StructField * GoType :=
  (field name tag true, TPtr t).

Definition NewCustomer : GoType :=
  TStruct [ required "Name" "name" TString;
            optional "Email" "email" TString ].

Definition CreateKeyParams : GoType :=
  TStruct [ required "ProductID" "productId" TString;
            optional "MaxActivations" "maxActivations" TString;
            optional "ExpiryDate" "expiryDate" TString;
            optional "CustomerID" "customerId" TString;
            optional "NewCustomer" "newCustomer" NewCustomer ].

Definition CreateKeyResponse : GoType :=
  TStruct [ required "Code" "code" TInt;
            required "Key" "key" TString ].

Definition ApiError_fields : list (StructField * GoType) :=
  [ required "Message" "message" TString;
    required "Code" "code" TInt;
    optional "Status" "status" TInt ].

Definition ApiError : GoType := TStruct ApiError_fields.

(** [ApiError{Message: ..., Code: ..., Status: ...}] and the fields of an
    [ApiError]. *)
Definition mkApiError (message : string) (code : Z) (status : option Z)
  : value ApiError :=
  (message, (code, (status, tt))).

Definition Message (e : value ApiError) : string := fst e.
Definition Code (e : value ApiError) : Z := fst (snd e).
Definition Status (e : value ApiError) : option Z := fst (snd (snd e)).

(** [e.Status = status]. *)
Definition set_Status (e : value ApiError) (status : option Z)
  : value ApiError :=
  (Message e, (Code e, (status, tt))).

(** [func (e *ApiError) Error() string]. *)
Definition Error (e : value ApiError) : string :=
  match Status e with
  | Some status =>
    "KeyMint API Error (code: " ++ fmt.d (Code e) ++ ", status: "
      ++ fmt.d status ++ "): " ++ Message e
  | None =>
    "KeyMint API Error (code: " ++ fmt.d (Code e) ++ "): " ++ Message e
  end.

Definition ActivateKeyParams : GoType :=
  TStruct [ required "ProductID" "productId" TString;
            required "LicenseKey" "licenseKey" TString;
            optional "HostID" "hostId" TString;
            optional "DeviceTag" "deviceTag" TString ].

Definition ActivateKeyResponse : GoType :=
  TStruct [ required "Code" "code" TInt;
            required "Message" "message" TString;
            optional "LicenseeName" "licenseeName" TString;
            optional "LicenseeEmail" "licenseeEmail" TString ].

Definition DeactivateKeyParams : GoType :=
  TStruct [ required "ProductID" "productId" TString;
            required "LicenseKey" "licenseKey" TString;
            optional "HostID" "hostId" TString ].

Definition DeactivateKeyResponse : GoType :=
  TStruct [ required "Message" "message" TString;
            required "Code" "code" TInt ].

Definition DeviceDetails : GoType :=
  TStruct [ required "HostID" "hostId" TString;
            optional "DeviceTag" "deviceTag" TString;
            optional "IPAddress" "ipAddress" TString;
            required "ActivationTime" "activationTime" TString ].

Definition LicenseDetails : GoType :=
  TStruct [ required "ID" "id" TString;
            required "Key" "key" TString;
            required "ProductID" "productId" TString;
            required "MaxActivations" "maxActivations" TInt;
            required "Activations" "activations" TInt;
            required "Devices" "devices" (TSlice DeviceDetails);
            required "Activated" "activated" TBool;
            optional "ExpirationDate" "expirationDate" TString ].

Definition CustomerDetails : GoType :=
  TStruct [ required "ID" "id" TString;
            optional "Name" "name" TString;
            optional "Email" "email" TString;
            required "Active" "active" TBool ].

Definition GetKeyParams : GoType :=
  TStruct [ required "ProductID" "productId" TString;
            required "LicenseKey" "licenseKey" TString ].

Definition GetKeyResponse : GoType :=
  TStruct [ required "Code" "code" TInt;
            required "Data" "data"
              (TStruct [ required "License" "license" LicenseDetails;
                         optional "Customer" "customer" CustomerDetails ]) ].

Definition BlockKeyParams : GoType :=
  TStruct [ required "ProductID" "productId" TString;
            required "LicenseKey" "licenseKey" TString ].

Definition BlockKeyResponse : GoType :=
  TStruct [ required "Message" "message" TString;
            required "Code" "code" TInt ].

Definition UnblockKeyParams : GoType :=
  TStruct [ required "ProductID" "productId" TString;
            required "LicenseKey" "licenseKey" TString ].

Definition UnblockKeyResponse : GoType :=
  TStruct [ required "Message" "message" TString;
            required "Code" "code" TInt ].

Definition CreateCustomerParams : GoType :=
  TStruct [ required "Name" "name" TString;
            required "Email" "email" TString ].

Definition CreateCustomerResponse : GoType :=
  TStruct [ required "ID" "id" TString;
            required "Action" "action" TString;
            required "Status" "status" TBool;
            required "Message" "message" TString;
            required "Data" "data"
              (TStruct [ required "ID" "id" TString;
                         required "Name" "name" TString;
                         required "Email" "email" TString ]);
            required "Code" "code" TInt ].

Definition Customer : GoType :=
  TStruct [ required "ID" "id" TString;
            required "Name" "name" TString;
            required "Email" "email" TString;
            required "Active" "active" TBool;
            required "CreatedAt" "createdAt" TString;
            required "UpdatedAt" "updatedAt" TString;
            required "CreatedBy" "createdBy" TString ].

Definition GetAllCustomersResponse : GoType :=
  TStruct [ required "Action" "action" TString;
            required "Status" "status" TBool;
            required "Data" "data" (TSlice Customer);
            required "Code" "code" TInt ].

Definition GetCustomerWithKeysParams : GoType :=
  TStruct [ required "CustomerID" "customerId" TString ].

Definition CustomerLicenseKey : GoType :=
  TStruct [ required "ID" "id" TString;
            required "Key" "key" TString;
            required "ProductID" "productId" TString;
            required "MaxActivations" "maxActivations" TInt;
            required "Activations" "activations" TInt;
            required "Activated" "activated" TBool;
            optional "ExpirationDate" "expirationDate" TString ].

Definition GetCustomerWithKeysResponse : GoType :=
  TStruct [ required "Action" "action" TString;
            required "Status" "status" TBool;
            required "Data" "data"
              (TStruct [ required "Customer" "customer" Customer;
                         required "LicenseKeys" "licenseKeys"
                           (TSlice CustomerLicenseKey) ]);
            required "Code" "code" TInt ].

Definition UpdateCustomerParams : GoType :=
  TStruct [ required "CustomerID" "customerId" TString;
            optional "Name" "name" TString;
            optional "Email" "email" TString;
            optional "Active" "active" TBool ].

Definition UpdateCustomerResponse : GoType :=
  TStruct [ required "Action" "action" TString;
            required "Status" "status" TBool;
            required "Message" "message" TString;
            required "Data" "data" Customer;
            required "Code" "code" TInt ].

Definition ToggleCustomerStatusParams : GoType :=
  TStruct [ required "CustomerID" "customerId" TString ].

Definition ToggleCustomerStatusResponse : GoType :=
  TStruct [ required "Action" "action" TString;
            required "Status" "status" TBool;
            required "Message" "message" TString;
            required "Code" "code" TInt ].

Definition GetCustomerByIdParams : GoType :=
  TStruct [ required "CustomerID" "customerId" TString ].

Definition GetCustomerByIdResponse : GoType :=
  TStruct [ required "Action" "action" TString;
            required "Status" "status" TBool;
            required "Data" "data" (TSlice Customer);
            required "Code" "code" TInt ].

Definition DeleteCustomerParams : GoType :=
  TStruct [ required "CustomerID" "customerId" TString ].

Definition DeleteCustomerResponse : GoType :=
  TStruct [ required "Action" "action" TString;
            required "Status" "status" TBool;
            required "Message" "message" TString;
            required "Code" "code" TInt ].

(* ------------------------------------------------------------------ *)
(** * src/Index.go *)

Record Client : Type := {
  baseURL : string;
  accessToken : string;
  httpClient : http.Client
}.

Definition Second : Z := 1000000000.   (* [time.Second] *)

(** [func New(accessToken string, baseURL string) ( *Client, error)]. *)
Definition New (accessToken baseURL : string) : option Client * option error :=
  if String.eqb accessToken "" then
    (None,
     Some (errorString "access token is required to initialize the client"))
  else
    let baseURL :=
      if String.eqb baseURL "" then "https://api.keymint.dev" else baseURL in
    (Some {| baseURL := baseURL;
             accessToken := accessToken;
             httpClient := {| http.Timeout := 30 * Second |} |},
     None).

(** [err == nil]. *)
Definition is_nil {A : Type} (err : option A) : bool :=
  match err with
  | None => true
  | Some _ => false
  end.

(** What a handler returns: the variable [result] points to, as the
    handler leaves it, and the error, [None] for [nil]. *)
Definition handled (resultT : GoType) : Type :=
  (value resultT * option (value ApiError))%type.

(** [func (c *Client) handleRequest(method, endpoint string,
    params interface{}, result interface{}) error], for [params] of type
    [paramsT] and [result] a pointer to a variable of type [resultT]. *)
Definition handleRequest (c : Client) (method endpoint : string)
  (paramsT : GoType) (params : value paramsT)
  (resultT : GoType) (result : value resultT) : Prog (handled resultT) :=
  let '(jsonData, err) := json.Marshal paramsT params in
  match err with
  | Some err =>
    msg <- Sprintf_v "failed to marshal request: " err ;;
    Ret (result, Some (mkApiError msg (-1) None))
  | None =>
    req <- http_NewRequest method (baseURL c ++ endpoint) (Some jsonData) ;;
    match req with
    | failed err =>
      msg <- Sprintf_v "failed to create request: " err ;;
      Ret (result, Some (mkApiError msg (-1) None))
    | ok req =>
      let req := http.Header_Set req "Authorization" ("Bearer " ++ accessToken c) in
      let req := http.Header_Set req "Content-Type" "application/json" in
      resp <- http_Do (httpClient c) req ;;
      match resp with
      | failed err =>
        msg <- Sprintf_v "request failed: " err ;;
        Ret (result, Some (mkApiError msg (-1) None))
      | ok resp =>
        let '(body, err) := io.ReadAll (http.Body resp) in
        match err with
        | Some err =>
          msg <- Sprintf_v "failed to read response: " err ;;
          Ret (result,
               Some (mkApiError msg (-1) (Some (http.StatusCode resp))))
        | None =>
          if http.StatusCode resp >=? 400 then
            let '(apiErr, err) := json.Unmarshal ApiError body (zero ApiError) in
            if is_nil err && negb (String.eqb (Message apiErr) "") then
              Ret (result, Some (set_Status apiErr (Some (http.StatusCode resp))))
            else
              Ret (result,
                   Some (mkApiError (fmt.Sprintf_s "API error: " body) (-1)
                           (Some (http.StatusCode resp))))
          else
            let '(result, err) := json.Unmarshal resultT body result in
            match err with
            | Some err =>
              msg <- Sprintf_v "failed to unmarshal response: " err ;;
              Ret (result,
                   Some (mkApiError msg (-1) (Some (http.StatusCode resp))))
            | None => Ret (result, None)
            end
        end
      end
    end
  end.

(** [func (c *Client) handleGetRequest(endpoint string,
    queryParams map[string]string, result interface{}) error].  A map is
    given by its keys and values, [None] being the [nil] map. *)
Definition handleGetRequest (c : Client) (endpoint : string)
  (queryParams : option (list (string * string)))
  (resultT : GoType) (result : value resultT) : Prog (handled resultT) :=
  req <- http_NewRequest "GET" (baseURL c ++ endpoint) None ;;
  match req with
  | failed err =>
    msg <- Sprintf_v "failed to create request: " err ;;
    Ret (result, Some (mkApiError msg (-1) None))
  | ok req =>
    let req :=
      match queryParams with
      | Some params => http.AddQuery req params
      | None => req
      end in
    let req := http.Header_Set req "Authorization" ("Bearer " ++ accessToken c) in
    let req := http.Header_Set req "Content-Type" "application/json" in
    resp <- http_Do (httpClient c) req ;;
    match resp with
    | failed err =>
      msg <- Sprintf_v "request failed: " err ;;
      Ret (result, Some (mkApiError msg (-1) None))
    | ok resp =>
      let '(body, err) := io.ReadAll (http.Body resp) in
      match err with
      | Some err =>
        msg <- Sprintf_v "failed to read response: " err ;;
        Ret (result, Some (mkApiError msg (-1) (Some (http.StatusCode resp))))
      | None =>
        if http.StatusCode resp >=? 400 then
          let '(apiErr, err) := json.Unmarshal ApiError body (zero ApiError) in
          if is_nil err && negb (String.eqb (Message apiErr) "") then
            Ret (result, Some (set_Status apiErr (Some (http.StatusCode resp))))
          else
            Ret (result,
                 Some (mkApiError (fmt.Sprintf_s "API error: " body) (-1)
                         (Some (http.StatusCode resp))))
        else
          let '(result, err) := json.Unmarshal resultT body result in
          match err with
          | Some err =>
            msg <- Sprintf_v "failed to unmarshal response: " err ;;
            Ret (result,
                 Some (mkApiError msg (-1) (Some (http.StatusCode resp))))
          | None => Ret (result, None)
          end
      end
    end
  end.

(** [func (c *Client) handleDeleteRequest(endpoint string,
    queryParams map[string]string, result interface{}) error]. *)
Definition handleDeleteRequest (c : Client) (endpoint : string)
  (queryParams : option (list (string * string)))
  (resultT : GoType) (result : value resultT) : Prog (handled resultT) :=
  req <- http_NewRequest "DELETE" (baseURL c ++ endpoint) None ;;
  match req with
  | failed err =>
    msg <- Sprintf_v "failed to create request: " err ;;
    Ret (result, Some (mkApiError msg (-1) None))
  | ok req =>
    let req :=
      match queryParams with
      | Some params => http.AddQuery req params
      | None => req
      end in
    let req := http.Header_Set req "Authorization" ("Bearer " ++ accessToken c) in
    let req := http.Header_Set req "Content-Type" "application/json" in
    resp <- http_Do (httpClient c) req ;;
    match resp with
    | failed err =>
      msg <- Sprintf_v "request failed: " err ;;
      Ret (result, Some (mkApiError msg (-1) None))
    | ok resp =>
      let '(body, err) := io.ReadAll (http.Body resp) in
      match err with
      | Some err =>
        msg <- Sprintf_v "failed to read response: " err ;;
        Ret (result, Some (mkApiError msg (-1) (Some (http.StatusCode resp))))
      | None =>
        if http.StatusCode resp >=? 400 then
          let '(apiErr, err) := json.Unmarshal ApiError body (zero ApiError) in
          if is_nil err && negb (String.eqb (Message apiErr) "") then
            Ret (result, Some (set_Status apiErr (Some (http.StatusCode resp))))
          else
            Ret (result,
                 Some (mkApiError (fmt.Sprintf_s "API error: " body) (-1)
                         (Some (http.StatusCode resp))))
        else
          let '(result, err) := json.Unmarshal resultT body result in
          match err with
          | Some err =>
            msg <- Sprintf_v "failed to unmarshal response: " err ;;
            Ret (result,
                 Some (mkApiError msg (-1) (Some (http.StatusCode resp))))
          | None => Ret (result, None)
          end
      end
    end
  end.

(** What an operation returns: a pointer to a response, [None] for [nil],
    and the error, [None] for [nil]. *)
Definition returned (resultT : GoType) : Type :=
  (option (value resultT) * option (value ApiError))%type.

(** [return &result, err]. *)
Definition return_result {resultT : GoType} (h : handled resultT)
  : Prog (returned resultT) :=
  let '(result, err) := h in Ret (Some result, err).

Definition CreateKey (c : Client) (params : value CreateKeyParams)
  : Prog (returned CreateKeyResponse) :=
  let result := zero CreateKeyResponse in
  h <- handleRequest c "POST" "/key" CreateKeyParams params
         CreateKeyResponse result ;;
  return_result h.

Definition ActivateKey (c : Client) (params : value ActivateKeyParams)
  : Prog (returned ActivateKeyResponse) :=
  let result := zero ActivateKeyResponse in
  h <- handleRequest c "POST" "/key/activate" ActivateKeyParams params
         ActivateKeyResponse result ;;
  return_result h.

Definition DeactivateKey (c : Client) (params : value DeactivateKeyParams)
  : Prog (returned DeactivateKeyResponse) :=
  let result := zero DeactivateKeyResponse in
  h <- handleRequest c "POST" "/key/deactivate" DeactivateKeyParams params
         DeactivateKeyResponse result ;;
  return_result h.

Definition GetKey (c : Client) (params : value GetKeyParams)
  : Prog (returned GetKeyResponse) :=
  let result := zero GetKeyResponse in
  let '(ProductID, (LicenseKey, _)) := params in
  let queryParams :=
    [ ("productId", ProductID); ("licenseKey", LicenseKey) ] in
  h <- handleGetRequest c "/key" (Some queryParams) GetKeyResponse result ;;
  return_result h.

Definition BlockKey (c : Client) (params : value BlockKeyParams)
  : Prog (returned BlockKeyResponse) :=
  let result := zero BlockKeyResponse in
  h <- handleRequest c "POST" "/key/block" BlockKeyParams params
         BlockKeyResponse result ;;
  return_result h.

Definition UnblockKey (c : Client) (params : value UnblockKeyParams)
  : Prog (returned UnblockKeyResponse) :=
  let result := zero UnblockKeyResponse in
  h <- handleRequest c "POST" "/key/unblock" UnblockKeyParams params
         UnblockKeyResponse result ;;
  return_result h.

Definition CreateCustomer (c : Client) (params : value CreateCustomerParams)
  : Prog (returned CreateCustomerResponse) :=
  let result := zero CreateCustomerResponse in
  h <- handleRequest c "POST" "/customer" CreateCustomerParams params
         CreateCustomerResponse result ;;
  return_result h.

Definition GetAllCustomers (c : Client)
  : Prog (returned GetAllCustomersResponse) :=
  let result := zero GetAllCustomersResponse in
  h <- handleGetRequest c "/customer" None GetAllCustomersResponse result ;;
  return_result h.

Definition GetCustomerWithKeys (c : Client)
  (params : value GetCustomerWithKeysParams)
  : Prog (returned GetCustomerWithKeysResponse) :=
  let result := zero GetCustomerWithKeysResponse in
  let '(CustomerID, _) := params in
  let queryParams := [ ("customerId", CustomerID) ] in
  h <- handleGetRequest c "/customer/keys" (Some queryParams)
         GetCustomerWithKeysResponse result ;;
  return_result h.

Definition UpdateCustomer (c : Client) (params : value UpdateCustomerParams)
  : Prog (returned UpdateCustomerResponse) :=
  let result := zero UpdateCustomerResponse in
  h <- handleRequest c "PUT" "/customer/by-id" UpdateCustomerParams params
         UpdateCustomerResponse result ;;
  return_result h.

Definition DeleteCustomer (c : Client) (params : value DeleteCustomerParams)
  : Prog (returned DeleteCustomerResponse) :=
  let result := zero DeleteCustomerResponse in
  let '(CustomerID, _) := params in
  let queryParams := [ ("customerId", CustomerID) ] in
  h <- handleDeleteRequest c "/customer/by-id" (Some queryParams)
         DeleteCustomerResponse result ;;
  return_result h.

Definition ToggleCustomerStatus (c : Client)
  (params : value ToggleCustomerStatusParams)
  : Prog (returned ToggleCustomerStatusResponse) :=
  let result := zero ToggleCustomerStatusResponse in
  h <- handleRequest c "POST" "/customer/disable" ToggleCustomerStatusParams
         params ToggleCustomerStatusResponse result ;;
  return_result h.

Definition GetCustomerById (c : Client) (params : value GetCustomerByIdParams)
  : Prog (returned GetCustomerByIdResponse) :=
  let result := zero GetCustomerByIdResponse in
  let '(CustomerID, _) := params in
  let queryParams := [ ("customerId", CustomerID) ] in
  h <- handleGetRequest c "/customer/by-id" (Some queryParams)
         GetCustomerByIdResponse result ;;
  return_result h.

(* ------------------------------------------------------------------ *)
(** * The thirteen operations as one family *)

(** An operation of the client together with its argument. *)
Inductive Operation : Type :=
| opCreateKey (params : value CreateKeyParams)
| opActivateKey (params : value ActivateKeyParams)
| opDeactivateKey (params : value DeactivateKeyParams)
| opGetKey (params : value GetKeyParams)
| opBlockKey (params : value BlockKeyParams)
| opUnblockKey (params : value UnblockKeyParams)
| opCreateCustomer (params : value CreateCustomerParams)
| opGetAllCustomers
| opGetCustomerWithKeys (params : value GetCustomerWithKeysParams)
| opUpdateCustomer (params : value UpdateCustomerParams)
| opDeleteCustomer (params : value DeleteCustomerParams)
| opToggleCustomerStatus (params : value ToggleCustomerStatusParams)
| opGetCustomerById (params : value GetCustomerByIdParams).

(** The response type of an operation. *)
Definition ResponseType (op : Operation) : GoType :=
  match op with
  | opCreateKey _ => CreateKeyResponse
  | opActivateKey _ => ActivateKeyResponse
  | opDeactivateKey _ => DeactivateKeyResponse
  | opGetKey _ => GetKeyResponse
  | opBlockKey _ => BlockKeyResponse
  | opUnblockKey _ => UnblockKeyResponse
  | opCreateCustomer _ => CreateCustomerResponse
  | opGetAllCustomers => GetAllCustomersResponse
  | opGetCustomerWithKeys _ => GetCustomerWithKeysResponse
  | opUpdateCustomer _ => UpdateCustomerResponse
  | opDeleteCustomer _ => DeleteCustomerResponse
  | opToggleCustomerStatus _ => ToggleCustomerStatusResponse
  | opGetCustomerById _ => GetCustomerByIdResponse
  end.

(** Calling an operation on a client. *)
Definition call (c : Client) (op : Operation)
  : Prog (returned (ResponseType op)) :=
  match op as o return Prog (returned (ResponseType o)) with
  | opCreateKey params => CreateKey c params
  | opActivateKey params => ActivateKey c params
  | opDeactivateKey params => DeactivateKey c params
  | opGetKey params => GetKey c params
  | opBlockKey params => BlockKey c params
  | opUnblockKey params => UnblockKey c params
  | opCreateCustomer params => CreateCustomer c params
  | opGetAllCustomers => GetAllCustomers c
  | opGetCustomerWithKeys params => GetCustomerWithKeys c params
  | opUpdateCustomer params => UpdateCustomer c params
  | opDeleteCustomer params => DeleteCustomer c params
  | opToggleCustomerStatus params => ToggleCustomerStatus c params
  | opGetCustomerById params => GetCustomerById c params
  end.

(** The table of the specification (section 4.2): the verb and the path of
    each operation. *)
Definition spec_verb (op : Operation) : string :=
  match op with
  | opGetKey _ | opGetAllCustomers | opGetCustomerWithKeys _
  | opGetCustomerById _ => "GET"
  | opUpdateCustomer _ => "PUT"
  | opDeleteCustomer _ => "DELETE"
  | _ => "POST"
  end.

Definition spec_path (op : Operation) : string :=
  match op with
  | opCreateKey _ => "/key"
  | opActivateKey _ => "/key/activate"
  | opDeactivateKey _ => "/key/deactivate"
  | opGetKey _ => "/key"
  | opBlockKey _ => "/key/block"
  | opUnblockKey _ => "/key/unblock"
  | opCreateCustomer _ => "/customer"
  | opGetAllCustomers => "/customer"
  | opGetCustomerWithKeys _ => "/customer/keys"
  | opUpdateCustomer _ => "/customer/by-id"
  | opDeleteCustomer _ => "/customer/by-id"
  | opToggleCustomerStatus _ => "/customer/disable"
  | opGetCustomerById _ => "/customer/by-id"
  end.

(** What calling an operation in a world gives: the response pointer and
    the error returned, and the requests sent with what came back. *)
Definition response_of (w : World) (c : Client) (op : Operation)
  : option (value (ResponseType op)) :=
  fst (fst (run w (call c op))).

Definition error_of (w : World) (c : Client) (op : Operation)
  : option (value ApiError) :=
  snd (fst (run w (call c op))).

Definition sent (w : World) (c : Client) (op : Operation) : list exchange :=
  snd (run w (call c op)).

(** ** Sample worlds *)

Definition nl : string := String "010" "".

(** A wording for the errors of [encoding/json]. *)
Definition sample_text (err : error) : string :=
  match err with
  | errorString text => text
  | SyntaxError => "invalid character in JSON input"
  | UnmarshalTypeError what => "json: cannot unmarshal " ++ what
  | UnsupportedTypeError => "json: unsupported type"
  end.

(** A server that answers every request with [status] and [body]. *)
Definition server (status : Z) (body : string) : World :=
  {| check_request := fun _ _ => None;
     round_trip :=
       fun _ => ok {| http.StatusCode := status; http.Body := (body, None) |};
     error_text := sample_text |}.

(** A host nothing listens on. *)
Definition unreachable : World :=
  {| check_request := fun _ _ => None;
     round_trip := fun _ => failed (errorString "connection refused");
     error_text := sample_text |}.

(** A server whose answer breaks off after the headers. *)
Definition broken_off (status : Z) : World :=
  {| check_request := fun _ _ => None;
     round_trip :=
       fun _ =>
         ok {| http.StatusCode := status;
               http.Body := ("", Some (errorString "unexpected EOF")) |};
     error_text := sample_text |}.

(** A world in which [http.NewRequest] refuses every URL. *)
Definition malformed : World :=
  {| check_request := fun _ _ => Some (errorString "missing protocol scheme");
     round_trip := fun _ => failed (errorString "connection refused");
     error_text := sample_text |}.

Definition sample_client : Client :=
  {| baseURL := "http://127.0.0.1:8080";
     accessToken := "test-token";
     httpClient := {| http.Timeout := 30 * Second |} |}.

(** The body and the query parameters of each operation, by the same
    table: the body is the whole argument, serialised; the query holds the
    fields named. *)
Definition spec_payload (op : Operation) : option string :=
  match op with
  | opCreateKey p => Some (fst (json.Marshal CreateKeyParams p))
  | opActivateKey p => Some (fst (json.Marshal ActivateKeyParams p))
  | opDeactivateKey p => Some (fst (json.Marshal DeactivateKeyParams p))
  | opBlockKey p => Some (fst (json.Marshal BlockKeyParams p))
  | opUnblockKey p => Some (fst (json.Marshal UnblockKeyParams p))
  | opCreateCustomer p => Some (fst (json.Marshal CreateCustomerParams p))
  | opUpdateCustomer p => Some (fst (json.Marshal UpdateCustomerParams p))
  | opToggleCustomerStatus p =>
    Some (fst (json.Marshal ToggleCustomerStatusParams p))
  | _ => None
  end.

Definition spec_query (op : Operation) : option (list (string * string)) :=
  match op with
  | opGetKey p => Some [ ("productId", fst p); ("licenseKey", fst (snd p)) ]
  | opGetCustomerWithKeys p => Some [ ("customerId", fst p) ]
  | opDeleteCustomer p => Some [ ("customerId", fst p) ]
  | opGetCustomerById p => Some [ ("customerId", fst p) ]
  | _ => None
  end.

(** The text [%v] prints for an error. *)
Definition text_of (w : World) (err : error) : string :=
  match err with
  | errorString text => text
  | _ => error_text w err
  end.

(** The status classification of the specification (section 4.1), for a
    response whose body was read as [body]. *)
Definition spec_classify (w : World) (resultT : GoType)
  (result : value resultT) (status : Z) (body : string) : handled resultT :=
  if 400 <=? status then
    match json.Unmarshal ApiError body (zero ApiError) with
    | (apiErr, None) =>
      if String.eqb (Message apiErr) ""
      then (result, Some (mkApiError ("API error: " ++ body) (-1) (Some status)))
      else (result, Some (mkApiError (Message apiErr) (Code apiErr) (Some status)))
    | (_, Some _) =>
      (result, Some (mkApiError ("API error: " ++ body) (-1) (Some status)))
    end
  else
    match json.Unmarshal resultT body result with
    | (decoded, None) => (decoded, None)
    | (decoded, Some err) =>
      (decoded,
       Some (mkApiError ("failed to unmarshal response: " ++ text_of w err)
               (-1) (Some status)))
    end.

(** The one routine the specification describes in place of the three
    handlers: build the request, send it, classify what comes back. *)
Definition spec_send (w : World) (c : Client) (method url : string)
  (payload : option string) (query : option (list (string * string)))
  (resultT : GoType) (result : value resultT)
  : handled resultT * list exchange :=
  match check_request w method url with
  | Some err =>
    ((result,
      Some (mkApiError ("failed to create request: " ++ text_of w err)
              (-1) None)), [])
  | None =>
    let req :=
      {| http.Method := method;
         http.URL := url;
         http.AddedQuery := query;
         http.Header := [ ("Content-Type", "application/json");
                          ("Authorization", "Bearer " ++ accessToken c) ];
         http.Payload := payload |} in
    match round_trip w req with
    | failed err =>
      ((result,
        Some (mkApiError ("request failed: " ++ text_of w err) (-1) None)),
       [(req, failed err)])
    | ok resp =>
      match http.Body resp with
      | (_, Some err) =>
        ((result,
          Some (mkApiError ("failed to read response: " ++ text_of w err)
                  (-1) (Some (http.StatusCode resp)))),
         [(req, ok resp)])
      | (body, None) =>
        (spec_classify w resultT result (http.StatusCode resp) body,
         [(req, ok resp)])
      end
    end
  end.

Definition spec_call (w : World) (c : Client) (op : Operation)
  : returned (ResponseType op) * list exchange :=
  let '((result, err), log) :=
    spec_send w c (spec_verb op) (baseURL c ++ spec_path op)
      (spec_payload op) (spec_query op)
      (ResponseType op) (zero (ResponseType op)) in
  ((Some result, err), log).

(** ** The arguments of the operations *)

(** The parameter type of an operation ([GetAllCustomers] takes none) and
    the argument it is called with. *)
Definition ParamsType (op : Operation) : GoType :=
  match op with
  | opCreateKey _ => CreateKeyParams
  | opActivateKey _ => ActivateKeyParams
  | opDeactivateKey _ => DeactivateKeyParams
  | opGetKey _ => GetKeyParams
  | opBlockKey _ => BlockKeyParams
  | opUnblockKey _ => UnblockKeyParams
  | opCreateCustomer _ => CreateCustomerParams
  | opGetAllCustomers => TStruct []
  | opGetCustomerWithKeys _ => GetCustomerWithKeysParams
  | opUpdateCustomer _ => UpdateCustomerParams
  | opDeleteCustomer _ => DeleteCustomerParams
  | opToggleCustomerStatus _ => ToggleCustomerStatusParams
  | opGetCustomerById _ => GetCustomerByIdParams
  end.

Definition params_of (op : Operation) : value (ParamsType op) :=
  match op as o return value (ParamsType o) with
  | opCreateKey p => p
  | opActivateKey p => p
  | opDeactivateKey p => p
  | opGetKey p => p
  | opBlockKey p => p
  | opUnblockKey p => p
  | opCreateCustomer p => p
  | opGetAllCustomers => tt
  | opGetCustomerWithKeys p => p
  | opUpdateCustomer p => p
  | opDeleteCustomer p => p
  | opToggleCustomerStatus p => p
  | opGetCustomerById p => p
  end.

(** ** Sample values *)

(** An error as a server may hold it, with a status of its own. *)
Definition sample_error : value ApiError :=
  mkApiError "License key not found" 404 (Some 500).

(** A list of one customer. *)
Definition sample_customers : value GetAllCustomersResponse :=
  ("getCustomers",
   (true,
    (mk_slice
       [ ("c1", ("Ada", ("ada@mail.com", (true, ("t0", ("t1", ("u1", tt))))))) ]
       [],
     (0, tt)))).

(* ------------------------------------------------------------------ *)
(** * Properties *)

(** ** Numbers and their decimal form *)

(** Reading back what [Itoa] wrote gives the number written. *)
Lemma ParseInt_Itoa (n : Z) :
  strconv.in_int64 n = true -> strconv.ParseInt (strconv.Itoa n) = Some n.
Proof.
  intros Hn.
  assert (Hparse : DecimalString.NilZero.int_of_string (strconv.Itoa n)
                   = Some (Z.to_int n)).
  { apply DecimalString.NilZero.isi; destruct n; cbn; try discriminate;
      intros [= H]; exact (DecimalPos.Unsigned.to_uint_nonnil _ H). }
  assert (Hplus : forall s', strconv.Itoa n <> String "+" s').
  { intros s'. unfold strconv.Itoa.
    destruct n as [|p|p]; cbn; try discriminate.
    pose proof (DecimalPos.Unsigned.to_uint_nonnil p) as Hnil.
    destruct (Pos.to_uint p); cbn; congruence. }
  unfold strconv.ParseInt.
  replace (match strconv.Itoa n with
           | String "+" s' =>
             option_map Decimal.Pos (DecimalString.NilZero.uint_of_string s')
           | _ => DecimalString.NilZero.int_of_string (strconv.Itoa n)
           end)
    with (DecimalString.NilZero.int_of_string (strconv.Itoa n)).
  - rewrite Hparse, DecimalZ.of_to, Hn. reflexivity.
  - destruct (strconv.Itoa n) as [|a s'] eqn:E; [reflexivity|].
    destruct (Ascii.eqb_spec a "+") as [->|Ha].
    + exfalso. exact (Hplus s' eq_refl).
    + destruct a as [[|] [|] [|] [|] [|] [|] [|] [|]];
        try reflexivity; exfalso; apply Ha; reflexivity.
  Qed.

(** ** Decoding an error body *)

Lemma Unmarshal_parsed (t : GoType) (data : string) (v : value t)
  (j : json.Value) :
  json.parse data = Some j ->
  json.Unmarshal t data v = json.decode j t v None.
Proof.
  intros H. unfold json.Unmarshal. rewrite H. reflexivity.
Qed.

Lemma Unmarshal_invalid (t : GoType) (data : string) (v : value t) :
  json.parse data = None ->
  json.Unmarshal t data v = (v, Some SyntaxError).
Proof.
  intros H. unfold json.Unmarshal. rewrite H. reflexivity.
Qed.

(** The object [{"message": M, "code": C}] decodes to an [ApiError] with
    that message and that code, and no status. *)
Lemma decode_message_code (M : string) (C : Z) :
  strconv.in_int64 C = true ->
  json.decode
    (json.Object [ ("message", json.Str M);
                   ("code", json.Number (strconv.Itoa C)) ])
    ApiError (zero ApiError) None
  = (mkApiError M C None, None).
Proof.
  intros HC. cbn -[strconv.ParseInt strconv.Itoa].
  rewrite (ParseInt_Itoa C HC). reflexivity.
Qed.

(** A key selects the [Code] field exactly when it is ["code"] up to
    case. *)
Lemma find_field_Code (key : string) :
  json.foldName key <> "CODE" ->
  json.find_field key ApiError_fields <> Some 1%nat.
Proof.
  intros Hfold. unfold json.find_field, ApiError_fields, required, optional.
  cbn [json.index_where JSONName option_map].
  destruct (String.eqb_spec "message" key) as [|_]; [discriminate|].
  destruct (String.eqb_spec "code" key) as [<-|_].
  { exfalso. apply Hfold. reflexivity. }
  destruct (String.eqb_spec "status" key) as [|_]; [discriminate|].
  cbn [option_map].
  destruct (String.eqb_spec (json.foldName "message") (json.foldName key));
    [discriminate|].
  destruct (String.eqb_spec (json.foldName "code") (json.foldName key))
    as [E|_].
  { exfalso. apply Hfold. rewrite <- E. reflexivity. }
  destruct (String.eqb_spec (json.foldName "status") (json.foldName key));
    discriminate.
Qed.

(** Members none of which selects the [Code] field leave it as it is. *)
Lemma decode_members_Code (ms : list (string * json.decoder))
  (v : value ApiError) (saved : option error) :
  (forall key dec, In (key, dec) ms -> json.foldName key <> "CODE") ->
  Code (fst (json.decode_members ApiError_fields ms v saved)) = Code v.
Proof.
  revert v saved.
  induction ms as [|[key dec] ms IH]; intros v saved Hms; [reflexivity|].
  cbn [json.decode_members].
  pose proof (find_field_Code key (Hms key dec (or_introl eq_refl))) as Hkey.
  assert (Hrest : forall k d, In (k, d) ms -> json.foldName k <> "CODE")
    by (intros k d Hin; apply (Hms k d); right; exact Hin).
  destruct (json.find_field key ApiError_fields) as [[|[|[|i]]]|];
    try (exfalso; apply Hkey; reflexivity);
    try (rewrite (IH _ _ Hrest); reflexivity).
  - destruct v as [m [c [s u]]].
    cbn [json.decode_field ApiError_fields required optional fst snd].
    destruct (dec TString m saved) as [m' saved'].
    rewrite (IH _ _ Hrest). reflexivity.
  - destruct v as [m [c [s u]]].
    cbn [json.decode_field ApiError_fields required optional fst snd].
    destruct (dec (TPtr TInt) s saved) as [s' saved'].
    rewrite (IH _ _ Hrest). reflexivity.
  - destruct v as [m [c [s u]]].
    cbn [json.decode_field ApiError_fields required optional fst snd].
    rewrite (IH _ _ Hrest). reflexivity.
Qed.

(** An error body that is an object without a ["code"] member (up to
    case) decodes to an [ApiError] whose code is zero. *)
Lemma Unmarshal_without_code (body : string)
  (ms : list (string * json.Value)) :
  json.parse body = Some (json.Object ms) ->
  (forall key j, In (key, j) ms -> json.foldName key <> "CODE") ->
  Code (fst (json.Unmarshal ApiError body (zero ApiError))) = 0.
Proof.
  intros Hparse Hms.
  rewrite (Unmarshal_parsed _ _ _ _ Hparse).
  change (json.decode (json.Object ms) ApiError (zero ApiError) None)
    with (json.decode_members ApiError_fields
            (map (fun '(key, j') => (key, json.decode j')) ms)
            (zero ApiError) None).
  rewrite decode_members_Code; [reflexivity|].
  intros key dec Hin. apply in_map_iff in Hin.
  destruct Hin as [[key' j] [[= -> _] Hin]]. exact (Hms _ _ Hin).
Qed.

(** ** Reading back what [json.Marshal] wrote *)

Lemma append_nil_r (s : string) : s ++ "" = s.
Proof. induction s as [|c s IH]; cbn; [reflexivity|]. rewrite IH. reflexivity. Qed.

Lemma append_assoc (a b c : string) : (a ++ b) ++ c = a ++ b ++ c.
Proof.
  induction a as [|x a IH]; cbn; [reflexivity|]. rewrite IH. reflexivity.
Qed.

(** A byte that is no quotation mark, no backslash and no control
    character is part of the string the scanner is in. *)
Lemma scan_plain (c : ascii) (raw rest : string) (acc : list json.token) :
  Ascii.eqb c DQ = false -> Ascii.eqb c "\" = false -> (code c <? 32)%N = false ->
  json.scan (json.inStr raw json.inString) (String c rest) acc =
  json.scan (json.inStr (raw ++ String c "") json.inString) rest acc.
Proof.
  intros H1 H2 H3. cbn [json.scan]. rewrite H1, H2, H3. reflexivity.
Qed.

(** A byte above the ASCII range is such a byte. *)
Lemma high_plain (c : ascii) :
  (128 <=? code c)%N = true ->
  Ascii.eqb c DQ = false /\ Ascii.eqb c "\" = false /\ (code c <? 32)%N = false.
Proof.
  destruct c as [[|] [|] [|] [|] [|] [|] [|] [|]]; vm_compute; intros H;
    try discriminate; repeat split.
Qed.

(** One ASCII byte as [escape] writes it is read by the scanner as part of
    the string. *)
Lemma scan_ascii (c : ascii) (raw rest : string) (acc : list json.token) :
  (code c <? 128)%N = true ->
  let piece := if json.htmlSafe c then String c "" else json.escape_byte c in
  json.scan (json.inStr raw json.inString) (piece ++ rest) acc =
  json.scan (json.inStr (raw ++ piece) json.inString) rest acc.
Proof.
  intros Hc.
  destruct c as [[|] [|] [|] [|] [|] [|] [|] [|]]; try discriminate Hc;
    cbv zeta; cbn; unfold json.snoc; rewrite ?append_assoc; reflexivity.
Qed.

Lemma between_high (lo hi : N) (c : ascii) :
  (128 <= lo)%N -> between lo hi c = true -> (128 <=? code c)%N = true.
Proof.
  unfold between. intros Hlo H. apply andb_true_iff in H. destruct H as [H _].
  apply N.leb_le in H. apply N.leb_le. lia.
Qed.

(** After the first byte of a well-formed sequence of [n + 1] bytes come
    [n] bytes above the ASCII range. *)
Lemma size_continues (c : ascii) (s1 : string) (n : nat) :
  (code c <? 128)%N = false ->
  utf8.size (String c s1) = S n -> utf8.continues n s1 = true.
Proof.
  intros Hc. unfold utf8.size. rewrite Hc.
  assert (Hcont : forall b, utf8.cont b = true -> (128 <=? code b)%N = true)
    by (intros b; apply between_high; lia).
  destruct s1 as [|b1 [|b2 [|b3 s4]]]; try discriminate.
  - destruct (between 194 223 c); [|discriminate].
    destruct (utf8.cont b1) eqn:E1; [|discriminate].
    intros [= <-]. cbn. rewrite (Hcont _ E1). reflexivity.
  - destruct (between 194 223 c).
    { destruct (utf8.cont b1) eqn:E1; [|discriminate].
      intros [= <-]. cbn. rewrite (Hcont _ E1). reflexivity. }
    destruct (between 224 239 c); [|discriminate].
    match goal with
    | |- (if ?b1ok && _ then _ else _) = _ -> _ => destruct b1ok eqn:E1
    end; [|discriminate].
    destruct (utf8.cont b2) eqn:E2; [|discriminate].
    intros [= <-]. cbn. rewrite (Hcont _ E2).
    assert (H1 : (128 <=? code b1)%N = true).
    { destruct (code c =? 224)%N; [|destruct (code c =? 237)%N];
        first [ apply Hcont; assumption
              | eapply between_high; [|eassumption]; lia ]. }
    rewrite H1. reflexivity.
  - destruct (between 194 223 c).
    { destruct (utf8.cont b1) eqn:E1; [|discriminate].
      intros [= <-]. cbn. rewrite (Hcont _ E1). reflexivity. }
    destruct (between 224 239 c).
    { match goal with
      | |- (if ?b1ok && _ then _ else _) = _ -> _ => destruct b1ok eqn:E1
      end; [|discriminate].
      destruct (utf8.cont b2) eqn:E2; [|discriminate].
      intros [= <-]. cbn. rewrite (Hcont _ E2).
      assert (H1 : (128 <=? code b1)%N = true).
      { destruct (code c =? 224)%N; [|destruct (code c =? 237)%N];
          first [ apply Hcont; assumption
                | eapply between_high; [|eassumption]; lia ]. }
      rewrite H1. reflexivity. }
    destruct (between 240 244 c); [|discriminate].
    match goal with
    | |- (if ?b1ok && _ && _ then _ else _) = _ -> _ => destruct b1ok eqn:E1
    end; [|discriminate].
    destruct (utf8.cont b2) eqn:E2; [|discriminate].
    destruct (utf8.cont b3) eqn:E3; [|discriminate].
    intros [= <-]. cbn. rewrite (Hcont _ E2), (Hcont _ E3).
    assert (H1 : (128 <=? code b1)%N = true).
    { destruct (code c =? 240)%N; [|destruct (code c =? 244)%N];
        first [ apply Hcont; assumption
              | eapply between_high; [|eassumption]; lia ]. }
    rewrite H1. reflexivity.
Qed.

(** The escape of U+FFFD is read as part of the string. *)
Lemma scan_replacement (raw rest : string) (acc : list json.token) :
  json.scan (json.inStr raw json.inString) (("\" ++ "ufffd") ++ rest) acc =
  json.scan (json.inStr (raw ++ "\" ++ "ufffd") json.inString) rest acc.
Proof.
  cbn. unfold json.snoc. rewrite ?append_assoc. reflexivity.
Qed.

(** So are the escapes of U+2028 and U+2029. *)
Lemma scan_separator (b2 : ascii) (raw rest : string) (acc : list json.token) :
  between 168 169 b2 = true ->
  let piece := "\u202" ++ String (hex_digit (code b2 mod 16)) "" in
  json.scan (json.inStr raw json.inString) (piece ++ rest) acc =
  json.scan (json.inStr (raw ++ piece) json.inString) rest acc.
Proof.
  intros Hb.
  destruct b2 as [[|] [|] [|] [|] [|] [|] [|] [|]]; try discriminate Hb;
    cbv zeta; cbn; unfold json.snoc; rewrite ?append_assoc; reflexivity.
Qed.

(** What [escape] writes for a string, followed by a quotation mark, is
    read by the scanner as a string literal up to that mark. *)
Lemma scan_escaped (n : nat) :
  forall (s : string) (k : nat) (raw rest : string) (acc : list json.token),
    (String.length s <= n)%nat ->
    utf8.continues k s = true ->
    json.scan (json.inStr raw json.inString)
      (json.escape k s ++ String DQ rest) acc =
    json.scan json.betweenTokens rest
      (json.tokString (json.unquote 0 (raw ++ json.escape k s)) :: acc).
Proof.
  induction n as [|n IH]; intros s k raw rest acc Hlen Hk.
  - destruct s; [|cbn in Hlen; lia].
    destruct k; [|discriminate].
    cbn. rewrite append_nil_r. reflexivity.
  - destruct s as [|c s1].
    { destruct k; [|discriminate]. cbn. rewrite append_nil_r. reflexivity. }
    cbn [String.length] in Hlen.
    destruct k as [|k].
    + cbn [json.escape].
      destruct (code c <? 128)%N eqn:Hc.
      * rewrite append_assoc, scan_ascii by exact Hc.
        rewrite IH by (try reflexivity; lia).
        rewrite append_assoc. reflexivity.
      * assert (Hother :
          json.scan (json.inStr raw json.inString)
            (match utf8.size (String c s1) with
             | O => "\" ++ "ufffd" ++ json.escape 0 s1
             | S m => String c (json.escape m s1)
             end ++ String DQ rest) acc =
          json.scan json.betweenTokens rest
            (json.tokString
               (json.unquote 0
                  (raw ++ match utf8.size (String c s1) with
                          | O => "\" ++ "ufffd" ++ json.escape 0 s1
                          | S m => String c (json.escape m s1)
                          end)) :: acc)).
        { destruct (utf8.size (String c s1)) as [|m] eqn:Hsize.
          - change ("\" ++ "ufffd" ++ json.escape 0 s1)
              with (("\" ++ "ufffd") ++ json.escape 0 s1).
            rewrite append_assoc, scan_replacement.
            rewrite IH by (try reflexivity; lia).
            rewrite append_assoc. reflexivity.
          - assert (Hhigh : (128 <=? code c)%N = true).
            { apply N.ltb_ge in Hc. apply N.leb_le. exact Hc. }
            destruct (high_plain c Hhigh) as (H1 & H2 & H3).
            change (String c (json.escape m s1) ++ String DQ rest)
              with (String c (json.escape m s1 ++ String DQ rest)).
            rewrite (scan_plain c _ _ _ H1 H2 H3).
            rewrite IH by (try lia; exact (size_continues c s1 m Hc Hsize)).
            rewrite append_assoc. reflexivity. }
        destruct s1 as [|b1 [|b2 s3]]; try exact Hother.
        destruct (((code c =? 226) && (code b1 =? 128))%N && between 168 169 b2)
          eqn:Hsep; [|exact Hother].
        apply andb_true_iff in Hsep. destruct Hsep as [_ Hb2].
        change ("\u202" ++ String (hex_digit (code b2 mod 16)) (json.escape 0 s3))
          with (("\u202" ++ String (hex_digit (code b2 mod 16)) "")
                  ++ json.escape 0 s3).
        rewrite append_assoc, (scan_separator b2 _ _ _ Hb2).
        rewrite IH by (try reflexivity; cbn [String.length] in Hlen; lia).
        rewrite append_assoc. reflexivity.
    + cbn [json.escape]. cbn [utf8.continues] in Hk.
      apply andb_true_iff in Hk. destruct Hk as [Hhigh Hk].
      destruct (high_plain c Hhigh) as (H1 & H2 & H3).
      change (String c (json.escape k s1) ++ String DQ rest)
        with (String c (json.escape k s1 ++ String DQ rest)).
      rewrite (scan_plain c _ _ _ H1 H2 H3).
      rewrite IH by (try lia; exact Hk).
      rewrite append_assoc. reflexivity.
Qed.

(** [quote s] is read as one string token, holding [s] as it reads back. *)
Lemma scan_quote (s rest : string) (acc : list json.token) :
  json.scan json.betweenTokens (json.quote s ++ rest) acc =
  json.scan json.betweenTokens rest (json.tokString (json.readback s) :: acc).
Proof.
  unfold json.quote.
  change (String DQ (json.escape 0 s ++ String DQ "") ++ rest)
    with (String DQ ((json.escape 0 s ++ String DQ "") ++ rest)).
  rewrite append_assoc.
  change (String DQ "" ++ rest) with (String DQ rest).
  change (json.scan json.betweenTokens
            (String DQ (json.escape 0 s ++ String DQ rest)) acc)
    with (json.scan (json.inStr "" json.inString)
            (json.escape 0 s ++ String DQ rest) acc).
  rewrite (scan_escaped (String.length s)) by (try reflexivity; lia).
  reflexivity.
Qed.

(** A byte that is a token of its own. *)
Lemma scan_punctuation (c : ascii) (t : json.token) (rest : string)
  (acc : list json.token) :
  json.begin_token c = Some (json.betweenTokens, Some t) ->
  json.scan json.betweenTokens (String c rest) acc =
  json.scan json.betweenTokens rest (t :: acc).
Proof.
  intros H. cbn [json.scan]. rewrite H. reflexivity.
Qed.

(** An ASCII byte as [escape] writes it is unquoted to that byte. *)
Lemma unquote_ascii (c : ascii) (rest : string) :
  (code c <? 128)%N = true ->
  let piece := if json.htmlSafe c then String c "" else json.escape_byte c in
  json.unquote 0 (piece ++ rest) = String c (json.unquote 0 rest).
Proof.
  intros Hc.
  destruct c as [[|] [|] [|] [|] [|] [|] [|] [|]]; try discriminate Hc;
    reflexivity.
Qed.

Lemma code_is (c : ascii) (n : N) : (code c =? n)%N = true -> c = ascii_of_N n.
Proof.
  intros H. apply N.eqb_eq in H. rewrite <- H. unfold code.
  symmetry. apply ascii_N_embedding.
Qed.

(** [escape] copies a well-formed sequence as it is. *)
Lemma size_escape (c : ascii) (s1 : string) (n : nat) :
  (code c <? 128)%N = false ->
  utf8.size (String c s1) = S n ->
  utf8.size (String c (json.escape n s1)) = S n.
Proof.
  intros Hc. unfold utf8.size. rewrite Hc.
  destruct s1 as [|b1 [|b2 [|b3 s4]]]; try discriminate.
  - destruct (between 194 223 c); [|discriminate].
    destruct (utf8.cont b1) eqn:E1; [|discriminate].
    intros [= <-]. cbn [json.escape]. rewrite E1. reflexivity.
  - destruct (between 194 223 c).
    { destruct (utf8.cont b1) eqn:E1; [|discriminate].
      intros [= <-]. cbn [json.escape]. rewrite E1. reflexivity. }
    destruct (between 224 239 c); [|discriminate].
    match goal with
    | |- (if ?b1ok && _ then _ else _) = _ -> _ => destruct b1ok eqn:E1
    end; [|discriminate].
    destruct (utf8.cont b2) eqn:E2; [|discriminate].
    intros [= <-]. cbn [json.escape]. rewrite E1, E2. reflexivity.
  - destruct (between 194 223 c).
    { destruct (utf8.cont b1) eqn:E1; [|discriminate].
      intros [= <-]. cbn [json.escape]. rewrite E1. reflexivity. }
    destruct (between 224 239 c).
    { match goal with
      | |- (if ?b1ok && _ then _ else _) = _ -> _ => destruct b1ok eqn:E1
      end; [|discriminate].
      destruct (utf8.cont b2) eqn:E2; [|discriminate].
      intros [= <-]. cbn [json.escape]. rewrite E1, E2. reflexivity. }
    destruct (between 240 244 c); [|discriminate].
    match goal with
    | |- (if ?b1ok && _ && _ then _ else _) = _ -> _ => destruct b1ok eqn:E1
    end; [|discriminate].
    destruct (utf8.cont b2) eqn:E2; [|discriminate].
    destruct (utf8.cont b3) eqn:E3; [|discriminate].
    intros [= <-]. cbn [json.escape]. rewrite E1, E2, E3. reflexivity.
Qed.

(** What [unquote] does at a byte above the ASCII range. *)
Lemma unquote_high (c : ascii) (rest : string) :
  (code c <? 128)%N = false ->
  json.unquote 0 (String c rest) =
  match utf8.size (String c rest) with
  | O => utf8.encode utf8.RuneError ++ json.unquote 0 rest
  | S n => String c (json.unquote n rest)
  end.
Proof.
  intros Hc. cbn [json.unquote]. rewrite Hc.
  destruct (Ascii.eqb_spec c "\") as [->|_]; [discriminate Hc|reflexivity].
Qed.

(** Unquoting what [escape] wrote for a well-formed string gives the
    string back. *)
Lemma unquote_valid (n : nat) :
  forall (s : string) (k : nat),
    (String.length s <= n)%nat ->
    utf8.valid k s = true ->
    json.unquote k (json.escape k s) = s.
Proof.
  induction n as [|n IH]; intros s k Hlen Hvalid.
  - destruct s; [|cbn in Hlen; lia]. destruct k; reflexivity.
  - destruct s as [|c s1]; [destruct k; reflexivity|].
    cbn [String.length] in Hlen.
    destruct k as [|k].
    + cbn [utf8.valid] in Hvalid.
      destruct (utf8.size (String c s1)) as [|m] eqn:Hsize; [discriminate|].
      cbn [json.escape].
      destruct (code c <? 128)%N eqn:Hc.
      * assert (m = O) by (unfold utf8.size in Hsize; rewrite Hc in Hsize;
                           congruence).
        subst m. rewrite unquote_ascii by exact Hc.
        rewrite IH by (try exact Hvalid; lia). reflexivity.
      * assert (Hother :
          json.unquote 0 (String c (json.escape m s1)) = String c s1).
        { rewrite unquote_high by exact Hc.
          rewrite (size_escape c s1 m Hc Hsize).
          rewrite IH by (try exact Hvalid; lia). reflexivity. }
        rewrite Hsize.
        destruct s1 as [|b1 [|b2 s3]]; try exact Hother.
        destruct (((code c =? 226) && (code b1 =? 128))%N && between 168 169 b2)
          eqn:Hsep; [|exact Hother].
        apply andb_true_iff in Hsep. destruct Hsep as [Hcb Hb2].
        apply andb_true_iff in Hcb. destruct Hcb as [Hc226 Hb1].
        apply code_is in Hc226. apply code_is in Hb1. subst c b1.
        assert (Hm : m = 2%nat).
        { destruct b2 as [[|] [|] [|] [|] [|] [|] [|] [|]];
            try discriminate Hb2; cbn in Hsize; congruence. }
        subst m. cbn [utf8.valid] in Hvalid.
        assert (Hrest : json.unquote 0 (json.escape 0 s3) = s3)
          by (apply IH; [cbn [String.length] in Hlen; lia|exact Hvalid]).
        destruct b2 as [[|] [|] [|] [|] [|] [|] [|] [|]];
          try discriminate Hb2; cbn; rewrite Hrest; reflexivity.
    + cbn [utf8.valid] in Hvalid. cbn [json.escape json.unquote].
      rewrite IH by (try exact Hvalid; lia). reflexivity.
Qed.

(** A string that is well-formed UTF-8 is read back as it was. *)
Lemma readback_valid (s : string) :
  utf8.valid 0 s = true -> json.readback s = s.
Proof.
  intros H. exact (unquote_valid (String.length s) s 0 (le_n _) H).
Qed.

#[local] Opaque json.quote.

Ltac scan_text :=
  unfold json.parse; cbn [json.text map String.concat];
  rewrite ?append_assoc; cbn [append];
  repeat first
    [ rewrite scan_quote
    | rewrite (scan_punctuation "{" json.tokBeginObject) by reflexivity
    | rewrite (scan_punctuation "}" json.tokEndObject) by reflexivity
    | rewrite (scan_punctuation ":" json.tokColon) by reflexivity
    | rewrite (scan_punctuation "," json.tokComma) by reflexivity ];
  reflexivity.

(** An object of two or three strings, as written by [text], parses to the
    object of the strings as they read back. *)
Lemma parse_two_strings (k1 v1 k2 v2 : string) :
  json.parse (json.text (json.Object [ (k1, json.Str v1); (k2, json.Str v2) ]))
  = Some (json.Object [ (json.readback k1, json.Str (json.readback v1));
                        (json.readback k2, json.Str (json.readback v2)) ]).
Proof. scan_text. Qed.

Lemma parse_three_strings (k1 v1 k2 v2 k3 v3 : string) :
  json.parse
    (json.text (json.Object [ (k1, json.Str v1); (k2, json.Str v2);
                              (k3, json.Str v3) ]))
  = Some (json.Object [ (json.readback k1, json.Str (json.readback v1));
                        (json.readback k2, json.Str (json.readback v2));
                        (json.readback k3, json.Str (json.readback v3)) ]).
Proof. scan_text. Qed.

(** The scanner inside a number. *)
Lemma scan_begin (c : ascii) (st : json.lex_state) (rest : string)
  (acc : list json.token) :
  json.begin_token c = Some (st, None) ->
  json.scan json.betweenTokens (String c rest) acc = json.scan st rest acc.
Proof.
  intros H. cbn [json.scan]. rewrite H. reflexivity.
Qed.

Lemma scan_number_on (lit : string) (ns ns' : json.num_state) (c : ascii)
  (rest : string) (acc : list json.token) :
  json.num_step ns c = Some ns' ->
  json.scan (json.inNum lit ns) (String c rest) acc =
  json.scan (json.inNum (lit ++ String c "") ns') rest acc.
Proof.
  intros H. cbn [json.scan]. rewrite H. reflexivity.
Qed.

Lemma scan_number_end (lit : string) (ns : json.num_state) (c : ascii)
  (t : json.token) (rest : string) (acc : list json.token) :
  json.ends_number c t ->
  json.num_final ns = true ->
  json.scan (json.inNum lit ns) (String c rest) acc =
  json.scan json.betweenTokens rest (t :: json.tokNumber lit :: acc).
Proof.
  intros [Hbegin Hstep] Hfinal. cbn [json.scan].
  rewrite Hstep, Hfinal, Hbegin. reflexivity.
Qed.

(** A run of digits, followed by a byte that ends a number, goes into the
    number the scanner is in. *)
Lemma scan_digits (c : ascii) (t : json.token) (d : Decimal.uint) :
  json.ends_number c t ->
  forall (lit rest : string) (acc : list json.token),
    json.scan (json.inNum lit json.state1)
      (DecimalString.NilEmpty.string_of_uint d ++ String c rest) acc =
    json.scan json.betweenTokens rest
      (t :: json.tokNumber (lit ++ DecimalString.NilEmpty.string_of_uint d)
         :: acc).
Proof.
  intros Hend.
  induction d; intros lit rest acc;
    cbn [DecimalString.NilEmpty.string_of_uint append];
    try (rewrite (scan_number_on _ _ json.state1) by reflexivity;
         rewrite IHd, append_assoc; reflexivity).
  rewrite (scan_number_end _ _ _ _ _ _ Hend) by reflexivity.
  rewrite append_nil_r. reflexivity.
Qed.

(** The decimal form of a positive number does not begin with a zero. *)
Lemma to_uint_head (p : positive) (d : Decimal.uint) :
  Pos.to_uint p <> Decimal.D0 d.
Proof.
  intros H.
  assert (Hnorm : Decimal.unorm (Pos.to_uint p) = Pos.to_uint p).
  { rewrite <- DecimalPos.Unsigned.to_of, DecimalPos.Unsigned.of_to.
    reflexivity. }
  assert (Hhead : Decimal.nzhead (Pos.to_uint p) <> Decimal.Nil).
  { intros E. apply DecimalFacts.unorm_0 in E. rewrite Hnorm in E.
    exact (DecimalPos.Unsigned.to_uint_nonzero p E). }
  rewrite (DecimalFacts.unorm_nzhead _ Hhead) in Hnorm.
  rewrite <- Hnorm in H. exact (DecimalFacts.nzhead_nonzero _ _ H).
Qed.

(** The scanner reads the decimal form of a number as one number. *)
Lemma scan_Itoa (c : ascii) (t : json.token) (n : Z) (rest : string)
  (acc : list json.token) :
  json.ends_number c t ->
  json.scan json.betweenTokens (strconv.Itoa n ++ String c rest) acc =
  json.scan json.betweenTokens rest (t :: json.tokNumber (strconv.Itoa n) :: acc).
Proof.
  intros Hend. unfold strconv.Itoa.
  destruct n as [|p|p]; cbn [Z.to_int DecimalString.NilZero.string_of_int].
  - change (DecimalString.NilZero.string_of_uint Decimal.zero) with "0".
    cbn [append].
    rewrite (scan_begin _ (json.inNum "0" json.state0)) by reflexivity.
    rewrite (scan_number_end _ _ _ _ _ _ Hend) by reflexivity.
    reflexivity.
  - pose proof (to_uint_head p) as Hhead.
    pose proof (DecimalPos.Unsigned.to_uint_nonnil p) as Hnil.
    destruct (Pos.to_uint p) as [|d|d|d|d|d|d|d|d|d|d];
      try (exfalso; apply Hnil; reflexivity);
      try (exfalso; apply (Hhead d); reflexivity);
      cbn [DecimalString.NilZero.string_of_uint
           DecimalString.NilEmpty.string_of_uint append];
      (erewrite scan_begin by reflexivity);
      rewrite (scan_digits c t d Hend); reflexivity.
  - pose proof (to_uint_head p) as Hhead.
    pose proof (DecimalPos.Unsigned.to_uint_nonnil p) as Hnil.
    destruct (Pos.to_uint p) as [|d|d|d|d|d|d|d|d|d|d];
      try (exfalso; apply Hnil; reflexivity);
      try (exfalso; apply (Hhead d); reflexivity);
      cbn [DecimalString.NilZero.string_of_uint
           DecimalString.NilEmpty.string_of_uint append];
      rewrite (scan_begin _ (json.inNum "-" json.stateNeg)) by reflexivity;
      rewrite (scan_number_on _ _ json.state1) by reflexivity;
      rewrite (scan_digits c t d Hend); reflexivity.
Qed.

Lemma brace_ends_number : json.ends_number "}" json.tokEndObject.
Proof. split; [reflexivity|intros []; reflexivity]. Qed.

#[local] Opaque strconv.Itoa.

(** What the encoder writes for an [ApiError] without status, with or
    without the line feed [json.Encoder] ends its output with, is read back
    as the object with that message and that code. *)
Lemma parse_encoded_error (M : string) (C : Z) :
  let body := fst (json.Marshal ApiError (mkApiError M C None)) in
  let read :=
    Some (json.Object [ ("message", json.Str (json.readback M));
                        ("code", json.Number (strconv.Itoa C)) ]) in
  json.parse body = read /\ json.parse (body ++ nl) = read.
Proof.
  cbv zeta.
  change (fst (json.Marshal ApiError (mkApiError M C None)))
    with (json.text (json.Object [ ("message", json.Str M);
                                   ("code", json.Number (strconv.Itoa C)) ])).
  unfold json.parse, nl. cbn [json.text map String.concat].
  rewrite ?append_assoc. cbn [append].
  split;
    repeat first
      [ rewrite scan_quote
      | rewrite (scan_Itoa _ _ _ _ _ brace_ends_number)
      | rewrite (scan_punctuation "{" json.tokBeginObject) by reflexivity
      | rewrite (scan_punctuation ":" json.tokColon) by reflexivity
      | rewrite (scan_punctuation "," json.tokComma) by reflexivity ];
    reflexivity.
Qed.

#[local] Transparent json.quote strconv.Itoa.

(** ** Running a computation *)

Lemma run_bind {A B : Type} (w : World) (p : Prog A) (f : A -> Prog B) :
  run w (bind p f) =
  let '(a, log1) := run w p in
  let '(b, log2) := run w (f a) in
  (b, (log1 ++ log2)%list).
Proof.
  induction p as [a | method url k IH | req k IH | err k IH]; cbn.
  - destruct (run w (f a)) as [b log2]. reflexivity.
  - apply IH.
  - rewrite IH.
    destruct (run w (k (round_trip w req))) as [a log1].
    destruct (run w (f a)) as [b log2]. reflexivity.
  - apply IH.
Qed.

Lemma run_Sprintf_v {A : Type} (w : World) (prefix : string) (err : error)
  (f : string -> Prog A) :
  run w (bind (Sprintf_v prefix err) f) = run w (f (prefix ++ text_of w err)).
Proof.
  destruct err; reflexivity.
Qed.

(** ** Serialising the arguments *)

(** Take a struct value apart, field by field. *)
Ltac break_value :=
  repeat match goal with
         | p : value _ |- _ => cbv in p
         | p : (_ * _)%type |- _ => destruct p
         | p : option _ |- _ => destruct p
         | p : unit |- _ => destruct p
         end.

(** [json.Marshal] cannot fail on the argument of an operation: the
    parameter types hold strings, booleans, pointers and structs only. *)
Lemma Marshal_params (op : Operation) :
  match op with
  | opCreateKey p => snd (json.Marshal CreateKeyParams p) = None
  | opActivateKey p => snd (json.Marshal ActivateKeyParams p) = None
  | opDeactivateKey p => snd (json.Marshal DeactivateKeyParams p) = None
  | opBlockKey p => snd (json.Marshal BlockKeyParams p) = None
  | opUnblockKey p => snd (json.Marshal UnblockKeyParams p) = None
  | opCreateCustomer p => snd (json.Marshal CreateCustomerParams p) = None
  | opUpdateCustomer p => snd (json.Marshal UpdateCustomerParams p) = None
  | opToggleCustomerStatus p =>
    snd (json.Marshal ToggleCustomerStatusParams p) = None
  | _ => True
  end.
Proof.
  destruct op; try exact I; break_value; reflexivity.
Qed.

#[local] Opaque json.Unmarshal json.Marshal.

(** The two headers every handler sets. *)
Lemma headers_set (method url token : string)
  (query : option (list (string * string))) (payload : option string) :
  http.Header_Set
    (http.Header_Set
       {| http.Method := method; http.URL := url; http.AddedQuery := query;
          http.Header := []; http.Payload := payload |}
       "Authorization" ("Bearer " ++ token))
    "Content-Type" "application/json" =
  {| http.Method := method; http.URL := url; http.AddedQuery := query;
     http.Header := [ ("Content-Type", "application/json");
                      ("Authorization", "Bearer " ++ token) ];
     http.Payload := payload |}.
Proof. reflexivity. Qed.

(** What a handler does once the request is built is the same in all
    three; this tactic follows it through every answer of the world. *)
Ltac run_handler :=
  cbn [run bind http_NewRequest http_Do];
  match goal with
  | |- context [check_request ?w ?m ?u] => destruct (check_request w m u)
  end;
  cbn [run bind http_NewRequest http_Do http.AddQuery http.Method http.URL
       http.AddedQuery http.Header http.Payload];
  [ rewrite run_Sprintf_v; reflexivity | ];
  unfold http.AddQuery;
  cbn [http.Method http.URL http.AddedQuery http.Header http.Payload];
  rewrite headers_set;
  match goal with
  | |- context [round_trip ?w ?r] =>
    destruct (round_trip w r) as [[? [? [?|]]]|?]
  end;
  cbn [run bind io.ReadAll http.Body http.StatusCode];
  rewrite ?run_Sprintf_v; try reflexivity;
  unfold spec_classify; rewrite Z.geb_leb;
  match goal with
  | |- context [400 <=? ?s] => destruct (400 <=? s)
  end;
  match goal with
  | |- context [json.Unmarshal ?t ?b ?v] =>
    destruct (json.Unmarshal t b v) as [? [?|]]
  end;
  cbn [is_nil andb run bind];
  rewrite ?run_Sprintf_v; try reflexivity;
  match goal with
  | |- context [String.eqb ?m ""] => destruct (String.eqb m "")
  end; reflexivity.

(** The three handlers are the one routine of the specification. *)
Lemma run_handleRequest (w : World) (c : Client) (method endpoint : string)
  (paramsT : GoType) (params : value paramsT)
  (resultT : GoType) (result : value resultT) (jsonData : string) :
  json.Marshal paramsT params = (jsonData, None) ->
  run w (handleRequest c method endpoint paramsT params resultT result) =
  spec_send w c method (baseURL c ++ endpoint) (Some jsonData) None
    resultT result.
Proof.
  intros HM. unfold handleRequest, spec_send. rewrite HM. run_handler.
Qed.

Lemma run_handleGetRequest (w : World) (c : Client) (endpoint : string)
  (queryParams : option (list (string * string)))
  (resultT : GoType) (result : value resultT) :
  run w (handleGetRequest c endpoint queryParams resultT result) =
  spec_send w c "GET" (baseURL c ++ endpoint) None queryParams resultT result.
Proof.
  unfold handleGetRequest, spec_send. destruct queryParams; run_handler.
Qed.

Lemma run_handleDeleteRequest (w : World) (c : Client) (endpoint : string)
  (queryParams : option (list (string * string)))
  (resultT : GoType) (result : value resultT) :
  run w (handleDeleteRequest c endpoint queryParams resultT result) =
  spec_send w c "DELETE" (baseURL c ++ endpoint) None queryParams
    resultT result.
Proof.
  unfold handleDeleteRequest, spec_send. destruct queryParams; run_handler.
Qed.

Lemma Marshal_pair (t : GoType) (v : value t) :
  snd (json.Marshal t v) = None ->
  json.Marshal t v = (fst (json.Marshal t v), None).
Proof.
  destruct (json.Marshal t v) as [data err]. cbn. intros ->. reflexivity.
Qed.

(** Every operation is the routine of the specification, at the verb, the
    path, the body and the query of its row in the table. *)
Lemma run_call (w : World) (c : Client) (op : Operation) :
  run w (call c op) = spec_call w c op.
Proof.
  pose proof (Marshal_params op) as HM.
  unfold spec_call.
  destruct op as [p|p|p|p|p|p|p| |p|p|p|p|p]; cbn [call];
    unfold CreateKey, ActivateKey, DeactivateKey, GetKey, BlockKey,
      UnblockKey, CreateCustomer, GetAllCustomers, GetCustomerWithKeys,
      UpdateCustomer, DeleteCustomer, ToggleCustomerStatus, GetCustomerById;
    try (destruct p as [p1 [p2 p3]] || destruct p as [p1 p2]);
    rewrite run_bind;
    first [ rewrite (run_handleRequest _ _ _ _ _ _ _ _ _ (Marshal_pair _ _ HM))
          | rewrite run_handleGetRequest
          | rewrite run_handleDeleteRequest ];
    cbn [spec_verb spec_path spec_payload spec_query ResponseType fst snd];
    match goal with
    | |- context [spec_send ?w ?c ?m ?u ?p ?q ?t ?r] =>
      destruct (spec_send w c m u p q t r) as [[result err] log]
    end;
    cbn [return_result run]; rewrite app_nil_r; reflexivity.
Qed.

(** ** What an operation returns, by what the world answered *)

(** An operation sends at most one request, to the URL made of the
    client's base URL and the path of the operation. *)
Lemma call_log (w : World) (c : Client) (op : Operation)
  (ret : returned (ResponseType op)) (log : list exchange) :
  run w (call c op) = (ret, log) ->
  log = [] \/
  exists req answer,
    log = [(req, answer)] /\
    round_trip w req = answer /\
    http.Method req = spec_verb op /\
    http.URL req = baseURL c ++ spec_path op /\
    http.AddedQuery req = spec_query op /\
    http.Payload req = spec_payload op.
Proof.
  rewrite run_call. unfold spec_call, spec_send.
  destruct (check_request w _ _); [intros [= _ <-]; left; reflexivity|].
  match goal with
  | |- context [round_trip w ?r] => set (req := r)
  end.
  destruct (round_trip w req) as [[status [body [err|]]]|err] eqn:E;
    cbn [http.Body http.StatusCode];
    try match goal with
        | |- context [spec_classify ?w ?t ?r ?s ?b] =>
          destruct (spec_classify w t r s b)
        end;
    intros [= _ <-]; right; exists req; eexists;
    (split; [reflexivity|]); rewrite E; repeat split; reflexivity.
Qed.

(** No response came back: the request could not be built, or sending it
    failed. *)
Lemma call_no_response (w : World) (c : Client) (op : Operation)
  (ret : returned (ResponseType op)) (log : list exchange) :
  run w (call c op) = (ret, log) ->
  (forall req resp, ~ In (req, ok resp) log) ->
  exists msg,
    ret = (Some (zero (ResponseType op)), Some (mkApiError msg (-1) None)).
Proof.
  rewrite run_call. unfold spec_call, spec_send.
  destruct (check_request w _ _); [intros [= <- _] _; eexists; reflexivity|].
  match goal with
  | |- context [round_trip w ?r] => set (req := r)
  end.
  destruct (round_trip w req) as [[status [body [err|]]]|err];
    cbn [http.Body http.StatusCode];
    try match goal with
        | |- context [spec_classify ?w ?t ?r ?s ?b] =>
          destruct (spec_classify w t r s b)
        end;
    intros [= <- <-] Hno;
    try (exfalso; eapply Hno; left; reflexivity).
  eexists; reflexivity.
Qed.

(** A response came back but its body could not be read. *)
Lemma call_unread (w : World) (c : Client) (op : Operation)
  (ret : returned (ResponseType op)) (log : list exchange)
  (req : http.Request) (resp : http.Response) (partial : string)
  (err : error) :
  run w (call c op) = (ret, log) ->
  In (req, ok resp) log ->
  http.Body resp = (partial, Some err) ->
  ret = (Some (zero (ResponseType op)),
         Some (mkApiError ("failed to read response: " ++ text_of w err)
                 (-1) (Some (http.StatusCode resp)))).
Proof.
  rewrite run_call. unfold spec_call, spec_send.
  destruct (check_request w _ _); [intros [= _ <-] []|].
  match goal with
  | |- context [round_trip w ?r] => set (req0 := r)
  end.
  destruct (round_trip w req0) as [[status [body [err0|]]]|err0];
    cbn [http.Body http.StatusCode];
    try match goal with
        | |- context [spec_classify ?w ?t ?r ?s ?b] =>
          destruct (spec_classify w t r s b)
        end;
    intros [= <- <-] [[= <- <-]|[]]; cbn; intros [= <- <-]; reflexivity.
Qed.

(** A response came back and its body was read: the result is the status
    classification of that status and body. *)
Lemma call_response (w : World) (c : Client) (op : Operation)
  (ret : returned (ResponseType op)) (log : list exchange)
  (req : http.Request) (resp : http.Response) (body : string) :
  run w (call c op) = (ret, log) ->
  In (req, ok resp) log ->
  http.Body resp = (body, None) ->
  ret =
  (Some (fst (spec_classify w (ResponseType op) (zero (ResponseType op))
                (http.StatusCode resp) body)),
   snd (spec_classify w (ResponseType op) (zero (ResponseType op))
          (http.StatusCode resp) body)).
Proof.
  rewrite run_call. unfold spec_call, spec_send.
  destruct (check_request w _ _); [intros [= _ <-] []|].
  match goal with
  | |- context [round_trip w ?r] => set (req0 := r)
  end.
  destruct (round_trip w req0) as [[status [body0 [err0|]]]|err0];
    cbn [http.Body http.StatusCode];
    try match goal with
        | |- context [spec_classify ?w ?t ?r ?s ?b] =>
          destruct (spec_classify w t r s b) eqn:E
        end;
    intros [= <- <-] [[= <- <-]|[]]; cbn; intros [= <-].
  rewrite E. reflexivity.
Qed.

#[local] Transparent json.Unmarshal json.Marshal.

Lemma run_pair {A : Type} (w : World) (p : Prog A) :
  run w p = (fst (run w p), snd (run w p)).
Proof. apply surjective_pairing. Qed.

(** ** Error bodies *)

(** C1. For every operation, when the server answers with status 400 and
    a body that is the JSON object [{"message": M, "code": C}], with [M]
    not empty and [C] an [int], the error returned has message [M], code
    [C] and status 400. *)
Theorem api_error_body_is_returned (w : World) (c : Client) (op : Operation)
  (req : http.Request) (body M : string) (C : Z) :
  In (req, ok {| http.StatusCode := 400; http.Body := (body, None) |})
     (sent w c op) ->
  json.parse body =
    Some (json.Object [ ("message", json.Str M);
                        ("code", json.Number (strconv.Itoa C)) ]) ->
  M <> "" ->
  strconv.in_int64 C = true ->
  error_of w c op = Some (mkApiError M C (Some 400)).
Proof.
  intros Hsent Hparse HM HC.
  unfold error_of.
  rewrite (call_response w c op _ _ _ _ body (run_pair _ _) Hsent eq_refl).
  cbn [fst snd http.StatusCode]. unfold spec_classify.
  change (400 <=? 400) with true. cbv iota.
  rewrite (Unmarshal_parsed _ _ _ _ Hparse), (decode_message_code M C HC).
  cbn [Message mkApiError fst Code snd].
  destruct (String.eqb_spec M "") as [E|_]; [contradiction|reflexivity].
Qed.

Lemma api_error_body_is_returned_witness :
  error_of
    (server 400 (js "{'message':'Email already exists','code':1001}" ++ nl))
    sample_client
    (opCreateCustomer ("Test Customer", ("duplicate@mail.com", tt)))
  = Some (mkApiError "Email already exists" 1001 (Some 400)).
Proof.
  eapply (api_error_body_is_returned _ _ _ _ _ "Email already exists" 1001).
  - left. reflexivity.
  - exact (proj2 (parse_encoded_error "Email already exists" 1001)).
  - discriminate.
  - reflexivity.
Defined.

(** The same for the body a Go server writes with
    [json.NewEncoder(w).Encode(ApiError{Message: M, Code: C})], as the
    mock servers of the repository's tests do, for a message that is
    well-formed UTF-8: the client returns that message and that code. *)
Lemma encoded_error_is_returned (w : World) (c : Client) (op : Operation)
  (req : http.Request) (M : string) (C : Z) :
  In (req,
      ok {| http.StatusCode := 400;
            http.Body :=
              (fst (json.Marshal ApiError (mkApiError M C None)) ++ nl,
               None) |})
     (sent w c op) ->
  utf8.valid 0 M = true ->
  M <> "" ->
  strconv.in_int64 C = true ->
  error_of w c op = Some (mkApiError M C (Some 400)).
Proof.
  intros Hsent Hvalid HM HC.
  unfold error_of.
  rewrite (call_response w c op _ _ _ _ _ (run_pair _ _) Hsent eq_refl).
  cbn [fst snd http.StatusCode]. unfold spec_classify.
  change (400 <=? 400) with true. cbv iota.
  rewrite (Unmarshal_parsed _ _ _ _ (proj2 (parse_encoded_error M C))).
  rewrite (readback_valid M Hvalid), (decode_message_code _ C HC).
  cbn [Message mkApiError fst Code snd].
  destruct (String.eqb_spec M "") as [E|_]; [contradiction|reflexivity].
Qed.

(** C2. For every operation, when the server answers with a status of 400
    or more and a body that does not decode as an [ApiError], or decodes
    with an empty message, the error returned has the message
    ["API error: "] followed by the body as it was received, code -1, and
    the status received. *)
Theorem unclassified_error_body (w : World) (c : Client) (op : Operation)
  (req : http.Request) (resp : http.Response) (body : string) :
  In (req, ok resp) (sent w c op) ->
  http.Body resp = (body, None) ->
  400 <= http.StatusCode resp ->
  snd (json.Unmarshal ApiError body (zero ApiError)) <> None \/
  Message (fst (json.Unmarshal ApiError body (zero ApiError))) = "" ->
  error_of w c op =
  Some (mkApiError ("API error: " ++ body) (-1) (Some (http.StatusCode resp))).
Proof.
  intros Hsent Hbody Hstatus Hbad.
  unfold error_of.
  rewrite (call_response w c op _ _ _ _ body (run_pair _ _) Hsent Hbody).
  cbn [fst snd]. unfold spec_classify.
  apply Z.leb_le in Hstatus. rewrite Hstatus.
  destruct (json.Unmarshal ApiError body (zero ApiError)) as [apiErr [err|]];
    cbn [fst snd] in *; [reflexivity|].
  destruct Hbad as [Hbad | ->]; [contradiction|reflexivity].
Qed.

Lemma unclassified_error_body_witness :
  error_of (server 400 "Bad Request") sample_client
    (opDeleteCustomer ("12345", tt))
  = Some (mkApiError "API error: Bad Request" (-1) (Some 400))
  /\
  error_of (server 502 (js "{'code':17}")) sample_client opGetAllCustomers
  = Some (mkApiError (js "API error: {'code':17}") (-1) (Some 502)).
Proof.
  split.
  - eapply (unclassified_error_body _ _ _ _
              {| http.StatusCode := 400; http.Body := ("Bad Request", None) |}).
    + left. reflexivity.
    + reflexivity.
    + cbn. lia.
    + left. vm_compute. discriminate.
  - eapply (unclassified_error_body _ _ _ _
              {| http.StatusCode := 502;
                 http.Body := (js "{'code':17}", None) |}).
    + left. reflexivity.
    + reflexivity.
    + cbn. lia.
    + right. vm_compute. reflexivity.
Defined.

(** C9. For every response with a status of 400 or more whose body
    decodes as an [ApiError] with a message that is not empty, the status
    of the error returned is the status received, whatever ["status"] the
    body holds; and when the body is an object without a ["code"] member
    (no member name is ["code"] up to case, which is how [encoding/json]
    matches names), the code of the error returned is 0. *)
Theorem status_overwritten_code_defaults (w : World) (c : Client)
  (op : Operation) (req : http.Request) (resp : http.Response)
  (body : string) (apiErr : value ApiError) :
  In (req, ok resp) (sent w c op) ->
  http.Body resp = (body, None) ->
  400 <= http.StatusCode resp ->
  json.Unmarshal ApiError body (zero ApiError) = (apiErr, None) ->
  Message apiErr <> "" ->
  error_of w c op =
    Some (mkApiError (Message apiErr) (Code apiErr)
            (Some (http.StatusCode resp)))
  /\
  (forall ms,
      json.parse body = Some (json.Object ms) ->
      (forall key j, In (key, j) ms -> json.foldName key <> "CODE") ->
      error_of w c op =
        Some (mkApiError (Message apiErr) 0 (Some (http.StatusCode resp)))).
Proof.
  intros Hsent Hbody Hstatus Hdec Hmsg.
  assert (Herr : error_of w c op =
                 Some (mkApiError (Message apiErr) (Code apiErr)
                         (Some (http.StatusCode resp)))).
  { unfold error_of.
    rewrite (call_response w c op _ _ _ _ body (run_pair _ _) Hsent Hbody).
    cbn [fst snd]. unfold spec_classify.
    apply Z.leb_le in Hstatus. rewrite Hstatus, Hdec.
    destruct (String.eqb_spec (Message apiErr) ""); [contradiction|].
    reflexivity. }
  split; [exact Herr|].
  intros ms Hparse Hms. rewrite Herr.
  pose proof (Unmarshal_without_code body ms Hparse Hms) as Hcode.
  rewrite Hdec in Hcode. cbn [fst] in Hcode. rewrite Hcode. reflexivity.
Qed.

Lemma status_overwritten_code_defaults_witness :
  error_of (server 404 (js "{'message':'Endpoint not found','status':200}"))
    sample_client (opGetCustomerById ("12345", tt))
  = Some (mkApiError "Endpoint not found" 0 (Some 404)).
Proof.
  refine (proj2
    (status_overwritten_code_defaults _ _ _ _
       {| http.StatusCode := 404;
          http.Body :=
            (js "{'message':'Endpoint not found','status':200}", None) |}
       _ (mkApiError "Endpoint not found" 0 (Some 200)) _ _ _ _ _)
    [ ("message", json.Str "Endpoint not found");
      ("status", json.Number "200") ] _ _).
  - left. reflexivity.
  - reflexivity.
  - cbn. lia.
  - vm_compute. reflexivity.
  - discriminate.
  - vm_compute. reflexivity.
  - intros key j [[= <- _]|[[= <- _]|[]]]; vm_compute; discriminate.
Defined.

(** [encoding/json] matches member names up to case: a member written
    ["Code"] is the code of the error. *)
Example code_member_in_another_case :
  error_of (server 400 (js "{'message':'m','Code':7}")) sample_client
    opGetAllCustomers
  = Some (mkApiError "m" 7 (Some 400)).
Proof. reflexivity. Qed.

(** ** Success bodies *)

(** C3. For every operation, when the server answers with a status below
    400 and a body that [json.Unmarshal] cannot decode into the response
    type of the operation, the call returns an error, with code -1 and the
    status received. *)
Theorem undecodable_success_body (w : World) (c : Client) (op : Operation)
  (req : http.Request) (resp : http.Response) (body : string) (err : error) :
  In (req, ok resp) (sent w c op) ->
  http.Body resp = (body, None) ->
  http.StatusCode resp < 400 ->
  snd (json.Unmarshal (ResponseType op) body (zero (ResponseType op)))
    = Some err ->
  error_of w c op =
  Some (mkApiError ("failed to unmarshal response: " ++ text_of w err) (-1)
          (Some (http.StatusCode resp))).
Proof.
  intros Hsent Hbody Hstatus Hdec.
  unfold error_of.
  rewrite (call_response w c op _ _ _ _ body (run_pair _ _) Hsent Hbody).
  cbn [fst snd]. unfold spec_classify.
  apply Z.lt_nge in Hstatus. apply Z.leb_nle in Hstatus. rewrite Hstatus.
  destruct (json.Unmarshal (ResponseType op) body (zero (ResponseType op)))
    as [decoded [err'|]]; cbn [snd] in *; [|discriminate].
  injection Hdec as ->. reflexivity.
Qed.

Lemma undecodable_success_body_witness :
  error_of (server 200 "<html>OK</html>") sample_client opGetAllCustomers
  = Some (mkApiError
            "failed to unmarshal response: invalid character in JSON input"
            (-1) (Some 200)).
Proof.
  refine (undecodable_success_body (server 200 "<html>OK</html>")
            sample_client opGetAllCustomers _
            {| http.StatusCode := 200;
               http.Body := ("<html>OK</html>", None) |}
            "<html>OK</html>" SyntaxError _ _ _ _).
  - left. reflexivity.
  - reflexivity.
  - cbn. lia.
  - vm_compute. reflexivity.
Defined.

(** C4, as stated, fails: a body with status 200 that is valid JSON but
    holds a string where [CreateKeyResponse] has its integer code makes
    [CreateKey] return an error together with a response whose [Key] is
    set. *)
Lemma failed_decode_keeps_fields :
  let w := server 200 (js "{'key':'LICENSE-KEY-12345','code':'E1'}") in
  let op := opCreateKey ("p1", (None, (None, (Some "12345", (None, tt))))) in
  error_of w sample_client op <> None /\
  response_of w sample_client op = Some (0, ("LICENSE-KEY-12345", tt)) /\
  response_of w sample_client op <> Some (zero (ResponseType op)).
Proof.
  vm_compute. repeat split; discriminate.
Qed.

(** C4, amended.  For every operation: the response pointer returned is
    never [nil]; a call that returns no error returns the response decoded
    from a body received with a status below 400; a call that returns an
    error returns the zero value of the response type whenever no body was
    received with a status below 400 or the body received is not valid
    JSON; and when a body received with a status below 400 is valid JSON,
    the response is what [json.Unmarshal] left in it, error or not. *)
Theorem response_and_error (w : World) (c : Client) (op : Operation) :
  let T := ResponseType op in
  (exists result, response_of w c op = Some result)
  /\
  (error_of w c op = None ->
   exists req resp body,
     sent w c op = [(req, ok resp)] /\
     http.Body resp = (body, None) /\
     http.StatusCode resp < 400 /\
     json.Unmarshal T body (zero T) = (
       match response_of w c op with Some r => r | None => zero T end, None))
  /\
  (error_of w c op <> None ->
   (forall req resp body,
       In (req, ok resp) (sent w c op) ->
       http.Body resp = (body, None) ->
       http.StatusCode resp < 400 ->
       json.parse body = None) ->
   response_of w c op = Some (zero T))
  /\
  (forall req resp body,
      In (req, ok resp) (sent w c op) ->
      http.Body resp = (body, None) ->
      http.StatusCode resp < 400 ->
      response_of w c op = Some (fst (json.Unmarshal T body (zero T)))).
Proof.
  intros T. unfold response_of, error_of, sent.
  pose proof (run_call w c op) as Hrun.
  unfold spec_call, spec_send in Hrun.
  destruct (check_request w _ _) as [err|].
  { rewrite Hrun. cbn [fst snd].
    repeat split; try (eexists; reflexivity); try discriminate;
      try (intros; contradiction). }
  match type of Hrun with
  | context [round_trip w ?r] => set (req0 := r) in Hrun
  end.
  destruct (round_trip w req0) as [[status [body0 [err0|]]]|err0];
    cbn [http.Body http.StatusCode] in Hrun.
  - rewrite Hrun. cbn [fst snd].
    repeat split; try (eexists; reflexivity); try discriminate.
    intros req resp body [[= <- <-]|[]]. discriminate.
  - unfold spec_classify in Hrun.
    destruct (400 <=? status) eqn:Hstatus.
    + assert (Hzero : fst (fst (run w (call c op))) = Some (zero T)
                      /\ snd (fst (run w (call c op))) <> None
                      /\ snd (run w (call c op))
                         = [(req0, ok {| http.StatusCode := status;
                                         http.Body := (body0, None) |})]).
      { destruct (json.Unmarshal ApiError body0 (zero ApiError))
          as [apiErr [err|]];
          [|destruct (String.eqb (Message apiErr) "")];
          rewrite Hrun; cbn [fst snd]; repeat split; discriminate. }
      destruct Hzero as (Hresp & Herr & Hlog).
      rewrite Hresp, Hlog. apply Z.leb_le in Hstatus.
      repeat split; try (eexists; reflexivity); try contradiction.
      intros req resp body [[= <- <-]|[]] _ Hlt. cbn in Hlt. lia.
    + apply Z.leb_nle in Hstatus.
      destruct (json.Unmarshal (ResponseType op) body0
                  (zero (ResponseType op))) as [decoded [err|]] eqn:Hdec;
        rewrite Hrun; cbn [fst snd].
      * repeat split; try (eexists; reflexivity); try discriminate.
        -- intros _ Hinvalid.
           specialize (Hinvalid _ _ body0 (or_introl eq_refl) eq_refl).
           cbn in Hinvalid. specialize (Hinvalid ltac:(lia)).
           rewrite (Unmarshal_invalid _ _ _ Hinvalid) in Hdec.
           injection Hdec as <- _. reflexivity.
        -- intros req resp body [[= <- <-]|[]] [= <-] _.
           fold T in Hdec |- *. rewrite Hdec. reflexivity.
      * repeat split; try (eexists; reflexivity); try contradiction.
        -- intros _. exists req0. eexists. exists body0.
           repeat split; cbn; try lia. exact Hdec.
        -- intros req resp body [[= <- <-]|[]] [= <-] _.
           fold T in Hdec |- *. rewrite Hdec. reflexivity.
  - rewrite Hrun. cbn [fst snd].
    repeat split; try (eexists; reflexivity); try discriminate.
    intros req resp body [[=]|[]].
Qed.

Lemma response_and_error_witness :
  response_of (server 200 "not json") sample_client opGetAllCustomers
  = Some (zero GetAllCustomersResponse)
  /\
  response_of (server 200 (js "{'code':0,'key':'LICENSE-KEY-12345'}"))
    sample_client
    (opCreateKey ("p1", (Some "5", (None, (Some "12345", (None, tt))))))
  = Some (0, ("LICENSE-KEY-12345", tt)).
Proof.
  split.
  - refine (proj1 (proj2 (proj2
      (response_and_error (server 200 "not json") sample_client
         opGetAllCustomers))) _ _).
    + vm_compute. discriminate.
    + intros req resp body [[= <- <-]|[]] [= <-] _. vm_compute. reflexivity.
  - refine (proj2 (proj2 (proj2
      (response_and_error
         (server 200 (js "{'code':0,'key':'LICENSE-KEY-12345'}"))
         sample_client
         (opCreateKey ("p1", (Some "5", (None, (Some "12345", (None, tt))))))
      ))) _ {| http.StatusCode := 200;
               http.Body :=
                 (js "{'code':0,'key':'LICENSE-KEY-12345'}", None) |}
            (js "{'code':0,'key':'LICENSE-KEY-12345'}") _ _ _).
    + left. reflexivity.
    + reflexivity.
    + cbn. lia.
Defined.

(** ** Constructing a client *)

(** C5. Whatever the base URL, [New] with an empty access token returns no
    client and the error whose text is exactly ["access token is required
    to initialize the client"].  [New] is a plain function: it asks
    nothing of the world, so no request is sent. *)
Theorem empty_token_is_refused (baseURL : string) :
  New "" baseURL =
  (None, Some (errorString "access token is required to initialize the client")).
Proof. reflexivity. Qed.

(** Every request an operation sends goes to the client's base URL
    followed by the path of the operation, and that URL is the one
    [http.NewRequest] is called with. *)
Lemma call_url (c : Client) (op : Operation) :
  (exists k,
      call c op = CheckRequest (spec_verb op) (baseURL c ++ spec_path op) k)
  /\
  (forall w req answer,
      In (req, answer) (sent w c op) ->
      http.URL req = baseURL c ++ spec_path op).
Proof.
  split.
  - pose proof (Marshal_params op) as HM.
    destruct op as [p|p|p|p|p|p|p| |p|p|p|p|p]; cbn [call];
      unfold CreateKey, ActivateKey, DeactivateKey, GetKey, BlockKey,
        UnblockKey, CreateCustomer, GetAllCustomers, GetCustomerWithKeys,
        UpdateCustomer, DeleteCustomer, ToggleCustomerStatus, GetCustomerById,
        handleRequest, handleGetRequest, handleDeleteRequest;
      try (destruct p as [p1 [p2 p3]] || destruct p as [p1 p2]);
      try (match type of HM with
           | snd ?m = None =>
             destruct m as [data err]; cbn [snd] in HM; subst err
           end);
      cbn [bind http_NewRequest spec_verb spec_path];
      eexists; reflexivity.
  - intros w req answer Hin.
    destruct (call_log w c op _ _ (run_pair _ _)) as [E|(r & a & E & H)];
      unfold sent in Hin; rewrite E in Hin.
    + contradiction.
    + destruct Hin as [[= <- <-]|[]]. apply H.
Qed.

(** C6. For every access token that is not empty: [New] with an empty base
    URL succeeds and stores [https://api.keymint.dev]; [New] with a base
    URL that is not empty succeeds and stores it as it is; and every
    operation of the client builds and sends its request at the stored
    base URL followed by the path of the operation. *)
Theorem base_url_is_the_prefix (token : string) :
  token <> "" ->
  (exists c,
      New token "" = (Some c, None) /\
      baseURL c = "https://api.keymint.dev")
  /\
  (forall base,
      base <> "" ->
      exists c,
        New token base = (Some c, None) /\
        baseURL c = base /\
        forall op,
          (exists k,
              call c op = CheckRequest (spec_verb op) (base ++ spec_path op) k)
          /\
          (forall w req answer,
              In (req, answer) (sent w c op) ->
              http.URL req = base ++ spec_path op)).
Proof.
  intros Htoken. unfold New.
  destruct (String.eqb_spec token "") as [|_]; [contradiction|].
  split.
  - eexists. split; reflexivity.
  - intros base Hbase.
    destruct (String.eqb_spec base "") as [|_]; [contradiction|].
    exists {| baseURL := base;
              accessToken := token;
              httpClient := {| http.Timeout := 30 * Second |} |}.
    split; [reflexivity|]. split; [reflexivity|].
    intros op.
    exact (call_url {| baseURL := base;
                       accessToken := token;
                       httpClient := {| http.Timeout := 30 * Second |} |} op).
Qed.

Lemma base_url_is_the_prefix_witness :
  (exists c,
      New "test-token" "" = (Some c, None) /\
      baseURL c = "https://api.keymint.dev")
  /\
  (exists c,
      New "test-token" "http://127.0.0.1:8080" = (Some c, None) /\
      exists k,
        call c (opGetKey ("p1", ("KEY-1", tt)))
        = CheckRequest "GET" "http://127.0.0.1:8080/key" k).
Proof.
  assert (Htoken : "test-token" <> "") by discriminate.
  split.
  - exact (proj1 (base_url_is_the_prefix "test-token" Htoken)).
  - destruct (proj2 (base_url_is_the_prefix "test-token" Htoken)
                "http://127.0.0.1:8080" ltac:(discriminate))
      as (c & Hnew & _ & Hops).
    exists c. split; [exact Hnew|].
    exact (proj1 (Hops (opGetKey ("p1", ("KEY-1", tt))))).
Defined.

(** ** Serialising an optional field *)

Lemma append_cancel_l (p a b : string) : p ++ a = p ++ b -> a = b.
Proof.
  induction p as [|x p IH]; cbn; [trivial|].
  intros [= H]. exact (IH H).
Qed.

(** One more member makes a different text. *)
Lemma text_one_more (m0 m : string * json.Value)
  (ms : list (string * json.Value)) :
  json.text (json.Object ((m0 :: ms) ++ [m])) <>
  json.text (json.Object (m0 :: ms)).
Proof.
  cbn [json.text].
  set (f := fun '(key, j') => json.quote key ++ ":" ++ json.text j').
  assert (Hsnoc : forall l x,
             String.concat "," (map f ((x :: l) ++ [m])) =
             String.concat "," (map f (x :: l)) ++ "," ++ f m).
  { induction l as [|y l IH]; intros x; [reflexivity|].
    change (f x ++ "," ++ String.concat "," (map f ((y :: l) ++ [m])) =
            (f x ++ "," ++ String.concat "," (map f (y :: l)))
              ++ "," ++ f m).
    rewrite IH, !append_assoc. reflexivity. }
  rewrite Hsnoc. intros H.
  apply append_cancel_l in H.
  rewrite append_assoc in H.
  apply append_cancel_l in H. discriminate.
Qed.

(** C7. A [DeactivateKeyParams] without host identifier is serialised as
    an object whose only members are ["productId"] and ["licenseKey"]: it
    has no ["hostId"] member, neither [null] nor empty, and that is what
    the text written reads back as.  With a host identifier, the empty
    string included, the object has a third member ["hostId"] holding that
    string, so that [""] is written ["hostId":""].  The two texts differ,
    and the text is the body [DeactivateKey] sends. *)
Theorem absent_host_is_omitted (ProductID LicenseKey : string) :
  let absent := json.Object [ ("productId", json.Str ProductID);
                              ("licenseKey", json.Str LicenseKey) ] in
  let present HostID :=
    json.Object [ ("productId", json.Str ProductID);
                  ("licenseKey", json.Str LicenseKey);
                  ("hostId", json.Str HostID) ] in
  json.Marshal DeactivateKeyParams (ProductID, (LicenseKey, (None, tt)))
    = (json.text absent, None)
  /\
  (forall HostID,
      json.Marshal DeactivateKeyParams
        (ProductID, (LicenseKey, (Some HostID, tt)))
      = (json.text (present HostID), None))
  /\
  json.parse (json.text absent)
    = Some (json.Object
              [ ("productId", json.Str (json.readback ProductID));
                ("licenseKey", json.Str (json.readback LicenseKey)) ])
  /\
  (forall HostID,
      json.parse (json.text (present HostID))
      = Some (json.Object
                [ ("productId", json.Str (json.readback ProductID));
                  ("licenseKey", json.Str (json.readback LicenseKey));
                  ("hostId", json.Str (json.readback HostID)) ]))
  /\
  json.text (json.Object [ ("hostId", json.Str "") ]) = js "{'hostId':''}"
  /\
  json.text (present "") <> json.text absent
  /\
  (forall w c params req answer,
      In (req, answer) (sent w c (opDeactivateKey params)) ->
      http.Payload req
      = Some (fst (json.Marshal DeactivateKeyParams params))).
Proof.
  cbv zeta.
  split; [reflexivity|]. split; [reflexivity|].
  split; [rewrite parse_two_strings; reflexivity|].
  split; [intros HostID; rewrite parse_three_strings; reflexivity|].
  split; [reflexivity|]. split.
  - apply (text_one_more _ ("hostId", json.Str "") [_]).
  - intros w c params req answer Hin.
    destruct (call_log w c (opDeactivateKey params) _ _ (run_pair _ _))
      as [E|(r & a & E & H)]; unfold sent in Hin; rewrite E in Hin.
    + contradiction.
    + destruct Hin as [[= <- <-]|[]]. apply H.
Qed.

Lemma absent_host_is_omitted_witness :
  let req :=
    {| http.Method := "POST";
       http.URL := "http://127.0.0.1:8080/key/deactivate";
       http.AddedQuery := None;
       http.Header := [ ("Content-Type", "application/json");
                        ("Authorization", "Bearer test-token") ];
       http.Payload :=
         Some (js "{'productId':'p1','licenseKey':'KEY-1'}") |} in
  let answer :=
    ok {| http.StatusCode := 200; http.Body := ("{}", None) |} in
  In (req, answer)
     (sent (server 200 "{}") sample_client
        (opDeactivateKey ("p1", ("KEY-1", (None, tt)))))
  /\
  http.Payload req = Some (js "{'productId':'p1','licenseKey':'KEY-1'}").
Proof.
  cbv zeta.
  assert (Hin : In ({| http.Method := "POST";
                       http.URL := "http://127.0.0.1:8080/key/deactivate";
                       http.AddedQuery := None;
                       http.Header :=
                         [ ("Content-Type", "application/json");
                           ("Authorization", "Bearer test-token") ];
                       http.Payload :=
                         Some (js "{'productId':'p1','licenseKey':'KEY-1'}")
                    |},
                    ok {| http.StatusCode := 200; http.Body := ("{}", None) |})
                   (sent (server 200 "{}") sample_client
                      (opDeactivateKey ("p1", ("KEY-1", (None, tt))))))
    by (left; reflexivity).
  split; [exact Hin|].
  exact (proj2 (proj2 (proj2 (proj2 (proj2 (proj2
           (absent_host_is_omitted "p1" "KEY-1"))))))
           (server 200 "{}") sample_client ("p1", ("KEY-1", (None, tt)))
           _ _ Hin).
Defined.

(** ** Failures of the transport *)

(** C8. A failure before any response is received gives an error with
    code -1 and no status: when the arguments cannot be serialised (for
    [handleRequest] at any type of argument; the arguments of the
    operations always can), when the request cannot be built, and when
    sending it fails.  A failure to read the body of a response received
    gives an error with code -1 and the status received. *)
Theorem transport_failures (w : World) (c : Client) :
  (forall method endpoint paramsT params resultT result data err,
      json.Marshal paramsT params = (data, Some err) ->
      run w (handleRequest c method endpoint paramsT params resultT result)
      = ((result,
          Some (mkApiError ("failed to marshal request: " ++ text_of w err)
                  (-1) None)), []))
  /\
  (forall op err,
      check_request w (spec_verb op) (baseURL c ++ spec_path op) = Some err ->
      sent w c op = [] /\
      error_of w c op =
      Some (mkApiError ("failed to create request: " ++ text_of w err)
              (-1) None))
  /\
  (forall op req err,
      In (req, failed err) (sent w c op) ->
      error_of w c op =
      Some (mkApiError ("request failed: " ++ text_of w err) (-1) None))
  /\
  (forall op,
      (forall req resp, ~ In (req, ok resp) (sent w c op)) ->
      exists msg, error_of w c op = Some (mkApiError msg (-1) None))
  /\
  (forall op req resp partial err,
      In (req, ok resp) (sent w c op) ->
      http.Body resp = (partial, Some err) ->
      error_of w c op =
      Some (mkApiError ("failed to read response: " ++ text_of w err) (-1)
              (Some (http.StatusCode resp)))).
Proof.
  split; [|split; [|split; [|split]]].
  - intros method endpoint paramsT params resultT result data err H.
    unfold handleRequest. rewrite H. rewrite run_Sprintf_v. reflexivity.
  - intros op err H. unfold sent, error_of. rewrite run_call.
    unfold spec_call, spec_send. rewrite H. split; reflexivity.
  - intros op req err. unfold error_of, sent. rewrite run_call.
    unfold spec_call, spec_send.
    destruct (check_request w _ _); [intros []|].
    match goal with
    | |- context [round_trip w ?r] => set (req0 := r)
    end.
    destruct (round_trip w req0) as [[status [body [err0|]]]|err0];
      cbn [http.Body http.StatusCode];
      try match goal with
          | |- context [spec_classify ?w ?t ?r ?s ?b] =>
            destruct (spec_classify w t r s b)
          end;
      cbn [fst snd]; intros [[= <- <-]|[]]; reflexivity.
  - intros op H.
    destruct (call_no_response w c op _ _ (run_pair _ _) H) as [msg E].
    exists msg. unfold error_of. rewrite E. reflexivity.
  - intros op req resp partial err H H0. unfold error_of.
    rewrite (call_unread w c op _ _ _ _ _ _ (run_pair _ _) H H0).
    reflexivity.
Qed.

Lemma transport_failures_witness :
  run unreachable
    (handleRequest sample_client "POST" "/key" TChan tt
       CreateKeyResponse (zero CreateKeyResponse))
  = ((zero CreateKeyResponse,
      Some (mkApiError "failed to marshal request: json: unsupported type"
              (-1) None)), [])
  /\
  error_of malformed sample_client opGetAllCustomers
  = Some (mkApiError "failed to create request: missing protocol scheme"
            (-1) None)
  /\
  error_of unreachable sample_client
    (opCreateCustomer ("A", ("a@b.com", tt)))
  = Some (mkApiError "request failed: connection refused" (-1) None)
  /\
  error_of (broken_off 200) sample_client (opDeleteCustomer ("12345", tt))
  = Some (mkApiError "failed to read response: unexpected EOF" (-1)
            (Some 200)).
Proof.
  split; [|split; [|split]].
  - exact (proj1 (transport_failures unreachable sample_client)
             "POST" "/key" TChan tt CreateKeyResponse
             (zero CreateKeyResponse) "" UnsupportedTypeError eq_refl).
  - exact (proj2 (proj1 (proj2 (transport_failures malformed sample_client))
                    opGetAllCustomers
                    (errorString "missing protocol scheme") eq_refl)).
  - refine (proj1 (proj2 (proj2 (transport_failures unreachable sample_client)))
              (opCreateCustomer ("A", ("a@b.com", tt))) _
              (errorString "connection refused") _).
    left. reflexivity.
  - refine (proj2 (proj2 (proj2 (proj2
              (transport_failures (broken_off 200) sample_client))))
              (opDeleteCustomer ("12345", tt)) _
              {| http.StatusCode := 200;
                 http.Body := ("", Some (errorString "unexpected EOF")) |}
              "" (errorString "unexpected EOF") _ eq_refl).
    left. reflexivity.
Defined.

(** ** The text of an error *)

(** C10. The text of an [ApiError] is ["KeyMint API Error (code: <code>,
    status: <status>): <message>"] when it has a status and ["KeyMint API
    Error (code: <code>): <message>"] when it has none, the code and the
    status written in decimal. *)
Theorem error_text_format (message : string) (code : Z) :
  (forall status,
      Error (mkApiError message code (Some status)) =
      "KeyMint API Error (code: " ++ strconv.Itoa code ++ ", status: "
        ++ strconv.Itoa status ++ "): " ++ message)
  /\
  Error (mkApiError message code None) =
  "KeyMint API Error (code: " ++ strconv.Itoa code ++ "): " ++ message.
Proof.
  split; [intros status|]; reflexivity.
Qed.

Example error_text_with_status :
  Error (mkApiError "Email already exists" 1001 (Some 400))
  = "KeyMint API Error (code: 1001, status: 400): Email already exists".
Proof. reflexivity. Qed.

Example error_text_without_status :
  Error (mkApiError "request failed: connection refused" (-1) None)
  = "KeyMint API Error (code: -1): request failed: connection refused".
Proof. reflexivity. Qed.

(** ** The scenarios of the specification (section 8) *)

Example scenario_create_customer :
  fst (run
         (server 200
            (js "{'status':true,'code':0,'data':{'id':'12345','name':'A','email':'a@b.com'}}"))
         (CreateCustomer sample_client ("A", ("a@b.com", tt))))
  = (Some ("", ("", (true, ("", (("12345", ("A", ("a@b.com", tt))), (0, tt)))))),
     None).
Proof. reflexivity. Qed.

Example scenario_create_key :
  fst (run (server 200 (js "{'code':0,'key':'LICENSE-KEY-12345'}"))
         (CreateKey sample_client
            ("p1", (Some "5", (None, (Some "12345", (None, tt)))))))
  = (Some (0, ("LICENSE-KEY-12345", tt)), None).
Proof. reflexivity. Qed.

Example scenario_unreachable :
  run unreachable (GetAllCustomers sample_client)
  = ((Some (zero GetAllCustomersResponse),
      Some (mkApiError "request failed: connection refused" (-1) None)),
     [ ({| http.Method := "GET";
           http.URL := "http://127.0.0.1:8080/customer";
           http.AddedQuery := None;
           http.Header := [ ("Content-Type", "application/json");
                            ("Authorization", "Bearer test-token") ];
           http.Payload := None |},
        failed (errorString "connection refused")) ]).
Proof. reflexivity. Qed.

(* ------------------------------------------------------------------ *)
(** * Round trips

    What [json.Marshal] writes for a value, [json.Unmarshal] reads back as
    that value.  This is proved once, for every type of [GoType] that is
    [representable], and then used at the types of [src/Types.go]: for
    the responses and the errors a server writes and the client decodes,
    and for the arguments the client writes and a server decodes. *)

(** ** Induction on JSON values and on Go types *)

Lemma Value_induction (P : json.Value -> Prop) :
  P json.Null ->
  (forall b, P (json.Bool b)) ->
  (forall lit, P (json.Number lit)) ->
  (forall s, P (json.Str s)) ->
  (forall js, Forall P js -> P (json.Array js)) ->
  (forall ms, Forall (fun m => P (snd m)) ms -> P (json.Object ms)) ->
  forall j, P j.
Proof.
  intros HNull HBool HNumber HStr HArray HObject.
  exact (fix F (j : json.Value) : P j :=
    match j with
    | json.Null => HNull
    | json.Bool b => HBool b
    | json.Number lit => HNumber lit
    | json.Str s => HStr s
    | json.Array js =>
      HArray js
        ((fix G (l : list json.Value) : Forall P l :=
            match l with
            | [] => Forall_nil P
            | x :: l' => Forall_cons x (F x) (G l')
            end) js)
    | json.Object ms =>
      HObject ms
        ((fix G (l : list (string * json.Value))
            : Forall (fun m => P (snd m)) l :=
            match l with
            | [] => Forall_nil _
            | m :: l' => Forall_cons m (F (snd m)) (G l')
            end) ms)
    end).
Qed.

Lemma GoType_induction (P : GoType -> Prop) :
  P TString -> P TInt -> P TBool ->
  (forall t, P t -> P (TPtr t)) ->
  (forall t, P t -> P (TSlice t)) ->
  (forall fs, Forall (fun p => P (snd p)) fs -> P (TStruct fs)) ->
  P TChan ->
  forall t, P t.
Proof.
  intros HString HInt HBool HPtr HSlice HStruct HChan.
  exact (fix F (t : GoType) : P t :=
    match t with
    | TString => HString
    | TInt => HInt
    | TBool => HBool
    | TPtr t' => HPtr t' (F t')
    | TSlice t' => HSlice t' (F t')
    | TStruct fs =>
      HStruct fs
        ((fix G (l : list (StructField * GoType))
            : Forall (fun p => P (snd p)) l :=
            match l with
            | [] => Forall_nil _
            | p :: l' => Forall_cons p (F (snd p)) (G l')
            end) fs)
    | TChan => HChan
    end).
Qed.

(** ** The scanner on the text of a value *)

(** A number ends where the text ends or a byte follows that no number
    holds. *)
Lemma scan_number_stop (lit : string) (ns : json.num_state) (rest : string)
  (acc : list json.token) :
  json.delimited rest ->
  json.num_final ns = true ->
  json.scan (json.inNum lit ns) rest acc =
  json.scan json.betweenTokens rest (json.tokNumber lit :: acc).
Proof.
  intros Hrest Hfinal. destruct rest as [|c rest]; cbn [json.scan].
  - rewrite Hfinal. reflexivity.
  - rewrite (Hrest ns), Hfinal. reflexivity.
Qed.

Lemma scan_digits_stop (d : Decimal.uint) :
  forall (lit rest : string) (acc : list json.token),
    json.delimited rest ->
    json.scan (json.inNum lit json.state1)
      (DecimalString.NilEmpty.string_of_uint d ++ rest) acc =
    json.scan json.betweenTokens rest
      (json.tokNumber (lit ++ DecimalString.NilEmpty.string_of_uint d) :: acc).
Proof.
  induction d; intros lit rest acc Hrest;
    cbn [DecimalString.NilEmpty.string_of_uint append];
    try (rewrite (scan_number_on _ _ json.state1) by reflexivity;
         rewrite IHd, append_assoc by exact Hrest; reflexivity).
  rewrite append_nil_r. apply scan_number_stop; [exact Hrest|reflexivity].
Qed.

Lemma scan_Itoa_stop (n : Z) (rest : string) (acc : list json.token) :
  json.delimited rest ->
  json.scan json.betweenTokens (strconv.Itoa n ++ rest) acc =
  json.scan json.betweenTokens rest (json.tokNumber (strconv.Itoa n) :: acc).
Proof.
  intros Hrest. unfold strconv.Itoa.
  destruct n as [|p|p]; cbn [Z.to_int DecimalString.NilZero.string_of_int].
  - change (DecimalString.NilZero.string_of_uint Decimal.zero) with "0".
    cbn [append].
    rewrite (scan_begin _ (json.inNum "0" json.state0)) by reflexivity.
    apply scan_number_stop; [exact Hrest|reflexivity].
  - pose proof (to_uint_head p) as Hhead.
    pose proof (DecimalPos.Unsigned.to_uint_nonnil p) as Hnil.
    destruct (Pos.to_uint p) as [|d|d|d|d|d|d|d|d|d|d];
      try (exfalso; apply Hnil; reflexivity);
      try (exfalso; apply (Hhead d); reflexivity);
      cbn [DecimalString.NilZero.string_of_uint
           DecimalString.NilEmpty.string_of_uint append];
      (erewrite scan_begin by reflexivity);
      rewrite (scan_digits_stop d) by exact Hrest; reflexivity.
  - pose proof (to_uint_head p) as Hhead.
    pose proof (DecimalPos.Unsigned.to_uint_nonnil p) as Hnil.
    destruct (Pos.to_uint p) as [|d|d|d|d|d|d|d|d|d|d];
      try (exfalso; apply Hnil; reflexivity);
      try (exfalso; apply (Hhead d); reflexivity);
      cbn [DecimalString.NilZero.string_of_uint
           DecimalString.NilEmpty.string_of_uint append];
      rewrite (scan_begin _ (json.inNum "-" json.stateNeg)) by reflexivity;
      rewrite (scan_number_on _ _ json.state1) by reflexivity;
      rewrite (scan_digits_stop d) by exact Hrest; reflexivity.
Qed.

(** Items separated by commas are read one after the other. *)
Lemma scan_list {A : Type} (txt : A -> string) (toks : A -> list json.token)
  (l : list A) :
  Forall (json.scans txt toks) l ->
  forall rest acc, json.delimited rest ->
    json.scan json.betweenTokens (String.concat "," (map txt l) ++ rest) acc =
    json.scan json.betweenTokens rest (rev (json.join (map toks l)) ++ acc).
Proof.
  induction 1 as [|x l Hx Hl IH]; intros rest acc Hrest.
  - reflexivity.
  - destruct l as [|y l'].
    + cbn [map String.concat json.join]. apply Hx, Hrest.
    + change (String.concat "," (map txt (x :: y :: l')))
        with (txt x ++ String "," (String.concat "," (map txt (y :: l')))).
      change (json.join (map toks (x :: y :: l')))
        with ((toks x ++ json.tokComma :: json.join (map toks (y :: l')))%list).
      rewrite append_assoc.
      change (String "," (String.concat "," (map txt (y :: l'))) ++ rest)
        with (String "," (String.concat "," (map txt (y :: l')) ++ rest)).
      rewrite Hx by (intros []; reflexivity).
      rewrite (scan_punctuation "," json.tokComma) by reflexivity.
      rewrite IH by exact Hrest.
      rewrite rev_app_distr. cbn [rev]. rewrite <- !app_assoc. reflexivity.
Qed.

Lemma written_Array (js : list json.Value) :
  json.written (json.Array js) -> Forall json.written js.
Proof.
  cbn [json.written]. induction js as [|j js IH]; cbn [fold_right].
  - constructor.
  - intros [Hj Hjs]. constructor; [exact Hj|exact (IH Hjs)].
Qed.

Lemma written_Object (ms : list (string * json.Value)) :
  json.written (json.Object ms) -> Forall (fun m => json.written (snd m)) ms.
Proof.
  cbn [json.written]. induction ms as [|m ms IH]; cbn [fold_right].
  - constructor.
  - intros [Hm Hms]. constructor; [exact Hm|exact (IH Hms)].
Qed.

Lemma Forall_modus {A : Type} (P Q : A -> Prop) (l : list A) :
  Forall (fun x => P x -> Q x) l -> Forall P l -> Forall Q l.
Proof.
  induction 1 as [|x l Hx Hl IH]; intros HP; constructor;
    inversion HP; subst; auto.
Qed.

(** The scanner reads the text of a value as the tokens of the value. *)
Lemma scan_value_text (j : json.Value) :
  json.written j -> json.scans json.text json.tokens j.
Proof.
  induction j as [|b|lit|s|js IH|ms IH] using Value_induction;
    intros Hj rest acc Hrest.
  - reflexivity.
  - destruct b; reflexivity.
  - destruct Hj as [n ->]. apply scan_Itoa_stop, Hrest.
  - apply scan_quote.
  - cbn [json.text json.tokens].
    cbn [append]. rewrite !append_assoc. cbn [append].
    rewrite (scan_punctuation "[" json.tokBeginArray) by reflexivity.
    rewrite (scan_list json.text json.tokens js)
      by (try (intros []; reflexivity);
          exact (Forall_modus _ _ _ IH (written_Array js Hj))).
    rewrite (scan_punctuation "]" json.tokEndArray) by reflexivity.
    cbn [rev]. rewrite rev_app_distr. cbn [rev app].
    rewrite <- !app_assoc. reflexivity.
  - cbn [json.text json.tokens].
    set (txt := fun '(key, j') => json.quote key ++ ":" ++ json.text j').
    set (toks := fun '(key, j') =>
           json.tokString (json.readback key) :: json.tokColon :: json.tokens j').
    cbn [append]. rewrite !append_assoc. cbn [append].
    rewrite (scan_punctuation "{" json.tokBeginObject) by reflexivity.
    rewrite (scan_list txt toks ms).
    + rewrite (scan_punctuation "}" json.tokEndObject) by reflexivity.
      cbn [rev]. rewrite rev_app_distr. cbn [rev app].
      rewrite <- !app_assoc. reflexivity.
    + apply written_Object in Hj.
      pose proof (Forall_modus _ _ _ IH Hj) as H.
      clear - H. induction H as [|[key j'] ms Hm Hms IHms]; constructor.
      * intros rest acc Hrest. unfold txt, toks.
        rewrite !append_assoc. rewrite scan_quote.
        change (":" ++ json.text j' ++ rest) with (String ":" (json.text j' ++ rest)).
        rewrite (scan_punctuation ":" json.tokColon) by reflexivity.
        rewrite (Hm rest _ Hrest).
        cbn [rev]. rewrite <- !app_assoc. reflexivity.
      * exact IHms.
    + intros []; reflexivity.
Qed.

(** ** The parser on the tokens of a value *)

(** Below the nesting limit an array or an object can be opened. *)
Lemma push_fits (f : json.frame) (ps : json.parse_state)
  (stack : list json.frame) :
  (N.of_nat (List.length stack) < json.maxNestingDepth)%N ->
  json.push f ps stack = Some (ps, f :: stack).
Proof.
  intros H. unfold json.push. apply N.ltb_lt in H. rewrite H. reflexivity.
Qed.

(** An array or an object is deeper than what it holds. *)
Lemma depth_elem (x : json.Value) (js : list json.Value) :
  In x js -> (S (json.depth x) <= json.depth (json.Array js))%nat.
Proof.
  cbn [json.depth]. induction js as [|y js IH]; cbn [In fold_right].
  - intros [].
  - intros [->|H]; [lia|]. specialize (IH H). lia.
Qed.

Lemma depth_member (m : string * json.Value) (ms : list (string * json.Value)) :
  In m ms -> (S (json.depth (snd m)) <= json.depth (json.Object ms))%nat.
Proof.
  cbn [json.depth]. induction ms as [|y ms IH]; cbn [In fold_right].
  - intros [].
  - intros [->|H]; [lia|]. specialize (IH H). lia.
Qed.

(** The elements of an array, from the first to the closing bracket. *)
Lemma parse_elems (st : list json.frame) (ts : list json.token)
  (l : list json.Value) :
  Forall json.parses l ->
  forall x els ps,
    json.parses x ->
    ps = json.beginValue \/ ps = json.beginValueOrEmpty ->
    (forall y, In y (x :: l) -> json.fits (json.inArray els :: st) y) ->
    json.parse_tokens ps (json.inArray els :: st)
      (json.join (map json.tokens (x :: l)) ++ json.tokEndArray :: ts)%list =
    json.parse_tokens
      (fst (json.close_value
              (json.Array (rev els ++ map json.read (x :: l))) st))
      (snd (json.close_value
              (json.Array (rev els ++ map json.read (x :: l))) st)) ts.
Proof.
  induction 1 as [|y l Hy Hl IH]; intros x els ps Hx Hps Hfit.
  - cbn [map json.join].
    rewrite (Hx ps _ _ Hps) by (apply Hfit; left; reflexivity).
    cbn [json.close_value fst snd json.parse_tokens json.step rev].
    destruct (json.close_value _ st). reflexivity.
  - change (json.join (map json.tokens (x :: y :: l)))
      with (json.tokens x ++ json.tokComma
              :: json.join (map json.tokens (y :: l)))%list.
    rewrite <- app_assoc.
    rewrite (Hx ps _ _ Hps) by (apply Hfit; left; reflexivity).
    cbn [json.close_value fst snd app].
    change (json.parse_tokens json.endValue
              (json.inArray (json.read x :: els) :: st)
              (json.tokComma :: ?ts'))
      with (json.parse_tokens json.beginValue
              (json.inArray (json.read x :: els) :: st) ts').
    rewrite (IH y (json.read x :: els) json.beginValue Hy)
      by (try (left; reflexivity);
          intros z Hz; unfold json.fits in *; cbn [List.length] in *;
          apply (Hfit z); right; exact Hz).
    cbn [rev map]. rewrite <- !app_assoc. reflexivity.
Qed.

(** The members of an object, from the first key to the closing brace. *)
Lemma parse_members (st : list json.frame) (ts : list json.token)
  (l : list (string * json.Value)) :
  Forall (fun m => json.parses (snd m)) l ->
  forall x ms k ps,
    json.parses (snd x) ->
    ps = json.beginStringOrEmpty \/ ps = json.beginString ->
    (forall y, In y (x :: l) -> json.fits (json.inObject ms k :: st) (snd y)) ->
    json.parse_tokens ps (json.inObject ms k :: st)
      (json.join (map (fun '(key, j') =>
         json.tokString (json.readback key) :: json.tokColon :: json.tokens j') (x :: l)) ++ json.tokEndObject :: ts)%list =
    json.parse_tokens
      (fst (json.close_value
              (json.Object (rev ms ++ map (fun '(key, j') => (json.readback key, json.read j')) (x :: l))) st))
      (snd (json.close_value
              (json.Object (rev ms ++ map (fun '(key, j') => (json.readback key, json.read j')) (x :: l))) st)) ts.
Proof.
  induction 1 as [|y l Hy Hl IH]; intros [key j] ms k ps Hx Hps Hfit.
  - cbn [map json.join app].
    assert (Hkey : json.step ps (json.inObject ms k :: st)
                     (json.tokString (json.readback key)) =
                   Some (json.objectKey, json.inObject ms (json.readback key) :: st))
      by (destruct Hps as [-> | ->]; reflexivity).
    cbn [json.parse_tokens]. rewrite Hkey. cbn [json.step].
    rewrite (Hx json.beginValue) by (try (left; reflexivity);
      apply (Hfit (key, j)); left; reflexivity).
    cbn [json.close_value fst snd json.parse_tokens json.step rev].
    destruct (json.close_value _ st). reflexivity.
  - change (json.join (map (fun '(key, j') =>
         json.tokString (json.readback key) :: json.tokColon :: json.tokens j') ((key, j) :: y :: l)))
      with (json.tokString (json.readback key) :: json.tokColon ::
            json.tokens j ++ json.tokComma
              :: json.join (map (fun '(key, j') =>
         json.tokString (json.readback key) :: json.tokColon :: json.tokens j') (y :: l)))%list.
    assert (Hkey : json.step ps (json.inObject ms k :: st)
                     (json.tokString (json.readback key)) =
                   Some (json.objectKey, json.inObject ms (json.readback key) :: st))
      by (destruct Hps as [-> | ->]; reflexivity).
    cbn [json.parse_tokens app]. rewrite Hkey. cbn [json.step].
    rewrite <- app_assoc.
    rewrite (Hx json.beginValue) by (try (left; reflexivity);
      apply (Hfit (key, j)); left; reflexivity).
    cbn [json.close_value fst snd app].
    change (json.parse_tokens json.endValue
              (json.inObject ?ms' ?k' :: st) (json.tokComma :: ?ts'))
      with (json.parse_tokens json.beginString
              (json.inObject ms' k' :: st) ts').
    rewrite (IH y _ _ json.beginString Hy)
      by (try (right; reflexivity);
          intros z Hz; unfold json.fits in *; cbn [List.length] in *;
          apply (Hfit z); right; exact Hz).
    cbn [rev map]. rewrite <- !app_assoc. reflexivity.
Qed.

(** The parser builds, from the tokens of a value, the value as it reads
    back. *)
Lemma parse_tokens_value (j : json.Value) : json.parses j.
Proof.
  induction j as [|b|lit|s|js IH|ms IH] using Value_induction;
    intros ps stack ts Hps Hfit.
  - destruct Hps as [-> | ->]; cbn; destruct (json.close_value _ stack);
      reflexivity.
  - destruct b, Hps as [-> | ->]; cbn; destruct (json.close_value _ stack);
      reflexivity.
  - destruct Hps as [-> | ->]; cbn; destruct (json.close_value _ stack);
      reflexivity.
  - destruct Hps as [-> | ->]; cbn; destruct (json.close_value _ stack);
      reflexivity.
  - assert (Hopen : json.step ps stack json.tokBeginArray =
                    Some (json.beginValueOrEmpty, json.inArray [] :: stack)).
    { destruct Hps as [-> | ->]; cbn [json.step json.value_token];
        (destruct stack; apply push_fits);
        unfold json.fits in Hfit; cbn [json.depth] in Hfit; lia. }
    cbn [json.tokens app json.parse_tokens]. rewrite Hopen.
    destruct IH as [|x js Hx Hjs].
    + cbn. destruct (json.close_value _ stack); reflexivity.
    + rewrite <- app_assoc. cbn [app].
      rewrite (parse_elems stack ts js Hjs x [] json.beginValueOrEmpty Hx)
        by (try (right; reflexivity);
            intros y Hy; apply depth_elem in Hy;
            unfold json.fits in *; cbn [List.length]; lia).
      reflexivity.
  - assert (Hopen : json.step ps stack json.tokBeginObject =
                    Some (json.beginStringOrEmpty, json.inObject [] "" :: stack)).
    { destruct Hps as [-> | ->]; cbn [json.step json.value_token];
        (destruct stack; apply push_fits);
        unfold json.fits in Hfit; cbn [json.depth] in Hfit; lia. }
    cbn [json.tokens app json.parse_tokens]. rewrite Hopen.
    destruct IH as [|x ms Hx Hms].
    + cbn. destruct (json.close_value _ stack); reflexivity.
    + rewrite <- app_assoc. cbn [app].
      rewrite (parse_members stack ts ms Hms x [] "" json.beginStringOrEmpty Hx)
        by (try (left; reflexivity);
            intros y Hy; apply depth_member in Hy;
            unfold json.fits in *; cbn [List.length]; lia).
      reflexivity.
Qed.

(** A value written by [text], with or without a line feed after it,
    json.parses to the value as it reads back. *)
Lemma parse_text (j : json.Value) :
  json.written j ->
  (N.of_nat (json.depth j) <= json.maxNestingDepth)%N ->
  json.parse (json.text j) = Some (json.read j) /\
  json.parse (json.text j ++ nl) = Some (json.read j).
Proof.
  intros Hj Hdepth.
  assert (Hparse : json.parse_tokens json.beginValue [] (json.tokens j) =
                   Some (json.read j)).
  { rewrite <- (app_nil_r (json.tokens j)).
    rewrite (parse_tokens_value j json.beginValue [] [])
      by (try (left; reflexivity); exact Hdepth).
    reflexivity. }
  unfold json.parse. split.
  - rewrite <- (append_nil_r (json.text j)).
    rewrite (scan_value_text j Hj "" []) by exact I.
    cbn [json.scan]. rewrite app_nil_r, List.rev_involutive. exact Hparse.
  - rewrite (scan_value_text j Hj nl []) by (intros []; reflexivity).
    change (json.scan json.betweenTokens nl ?acc) with (Some (rev acc)).
    rewrite app_nil_r, List.rev_involutive. exact Hparse.
Qed.

(** ** Decoding what was encoded *)

(** How a struct is written, field by field. *)
Lemma encode_fields (f : StructField) (t : GoType)
  (fs : list (StructField * GoType)) (x : value t) (r : value_fields fs) :
  json.encode (TStruct ((f, t) :: fs)) (x, r) =
  if OmitEmpty f && json.isEmptyValue t x then json.encode (TStruct fs) r
  else
    match json.encode t x, json.encode (TStruct fs) r with
    | Some j, Some (json.Object ms) => Some (json.Object ((JSONName f, j) :: ms))
    | _, _ => None
    end.
Proof.
  cbn [json.encode fst snd].
  destruct (OmitEmpty f && json.isEmptyValue t x); [reflexivity|].
  destruct (json.encode t x); [|reflexivity].
  match goal with
  | |- context [match ?m with Some _ => _ | None => _ end] => destruct m
  end; reflexivity.
Qed.

Lemma encode_struct (fs : list (StructField * GoType)) (v : value_fields fs)
  (j : json.Value) :
  json.encode (TStruct fs) v = Some j -> exists ms, j = json.Object ms.
Proof.
  cbn [json.encode].
  match goal with |- context [option_map _ ?m] => destruct m as [ms|] end;
    [|discriminate].
  intros H. injection H as <-. exists ms. reflexivity.
Qed.

(** A key that names a later field selects it, whatever the first field
    is called. *)
Lemma find_field_later (f : StructField) (t : GoType)
  (fs : list (StructField * GoType)) (key : string) :
  String.eqb (JSONName f) key = false ->
  In key (map (fun p => JSONName (fst p)) fs) ->
  exists i, json.find_field key fs = Some i /\
            json.find_field key ((f, t) :: fs) = Some (S i).
Proof.
  intros Hf Hin.
  assert (Hexact : exists i,
    json.index_where (fun f => String.eqb (JSONName f) key) fs = Some i).
  { induction fs as [|[g u] fs IH]; cbn [map In fst] in Hin; [destruct Hin|].
    cbn [json.index_where].
    destruct (String.eqb (JSONName g) key) eqn:Hg; [exists O; reflexivity|].
    destruct Hin as [Hin|Hin].
    - rewrite Hin, String.eqb_refl in Hg. discriminate.
    - destruct (IH Hin) as [i Hi]. rewrite Hi. exists (S i). reflexivity. }
  destruct Hexact as [i Hi]. exists i.
  unfold json.find_field. cbn [json.index_where]. rewrite Hf, Hi.
  split; reflexivity.
Qed.

(** Members that belong to later fields leave the first field alone. *)
Lemma decode_members_rest (f : StructField) (t : GoType)
  (fs : list (StructField * GoType)) (ms : list (string * json.decoder)) :
  (forall key, In key (map fst ms) ->
     String.eqb (JSONName f) key = false /\ In key (map (fun p => JSONName (fst p)) fs)) ->
  forall (x : value t) (r : value_fields fs) (saved : option error),
    json.decode_members ((f, t) :: fs) ms (x, r) saved =
    let '(r', saved') := json.decode_members fs ms r saved in
    ((x, r'), saved').
Proof.
  induction ms as [|[key dec] ms IH]; intros Hkeys x r saved.
  - reflexivity.
  - destruct (Hkeys key (or_introl eq_refl)) as [Hf Hin].
    destruct (find_field_later f t fs key Hf Hin) as [i [Hi HSi]].
    cbn [json.decode_members]. rewrite Hi, HSi.
    cbn [json.decode_field fst snd].
    destruct (json.decode_field dec fs i r saved) as [r1 saved1].
    apply IH. intros k Hk. apply Hkeys. right. exact Hk.
Qed.

(** The members written for a struct are named after its fields. *)
Lemma encode_names (fs : list (StructField * GoType)) :
  forall (v : value_fields fs) (ms : list (string * json.Value)),
    json.encode (TStruct fs) v = Some (json.Object ms) ->
    forall key, In key (map fst ms) -> In key (map (fun p => JSONName (fst p)) fs).
Proof.
  induction fs as [|[f t] fs IH]; intros v ms Hv key Hkey.
  - cbn in Hv. injection Hv as <-. destruct Hkey.
  - destruct v as [x r]. rewrite encode_fields in Hv. cbn [map fst In].
    destruct (OmitEmpty f && json.isEmptyValue t x).
    + right. exact (IH r ms Hv key Hkey).
    + destruct (json.encode t x) as [j|]; [|discriminate].
      destruct (json.encode (TStruct fs) r) as [[| | | | |ms']|] eqn:Hr;
        try discriminate.
      injection Hv as <-. destruct Hkey as [Hkey|Hkey].
      * left. exact Hkey.
      * right. exact (IH r ms' Hr key Hkey).
Qed.

Lemma existsb_eqb (key : string) (l : list string) :
  existsb (String.eqb key) l = false ->
  forall k, In k l -> String.eqb key k = false.
Proof.
  induction l as [|y l IH]; cbn [existsb In]; intros H k Hk.
  - destruct Hk.
  - apply orb_false_iff in H. destruct H as [Hy Hl].
    destruct Hk as [<-|Hk]; [exact Hy|exact (IH Hl k Hk)].
Qed.

Lemma representable_fields (f : StructField) (t : GoType)
  (fs : list (StructField * GoType)) :
  json.representable (TStruct ((f, t) :: fs)) = true ->
  existsb (String.eqb (JSONName f)) (map (fun p => JSONName (fst p)) fs) = false /\
  json.readback (JSONName f) = JSONName f /\
  (OmitEmpty f = true -> json.is_pointer t = true) /\
  json.representable t = true /\
  json.representable (TStruct fs) = true.
Proof.
  cbn [json.representable json.distinct map fst].
  intros H.
  repeat match goal with
         | H : _ && _ = true |- _ => apply andb_prop in H; destruct H
         end.
  repeat split.
  - apply negb_true_iff. assumption.
  - apply String.eqb_eq. assumption.
  - intros Homit. rewrite Homit in *. assumption.
  - assumption.
  - apply andb_true_intro. split; assumption.
Qed.

Lemma encode_never_null (t : GoType) (v : value t) (j : json.Value) :
  json.never_null t = true ->
  json.encode t v = Some j -> json.read j <> json.Null.
Proof.
  destruct t; try discriminate; intros _ H.
  - injection H as <-. discriminate.
  - injection H as <-. discriminate.
  - injection H as <-. discriminate.
  - apply encode_struct in H. destruct H as [ms ->]. discriminate.
Qed.

Lemma decode_pointer (j : json.Value) (t : GoType) (v : value (TPtr t))
  (saved : option error) :
  j <> json.Null ->
  json.decode j (TPtr t) v saved =
  let '(x, saved') :=
    json.decode j t (match v with Some x => x | None => zero t end) saved in
  (Some x, saved').
Proof.
  destruct j; intros H; try reflexivity. contradiction.
Qed.

Lemma decode_array (j1 : json.Value) (js : list json.Value) (t : GoType)
  (saved : option error) :
  json.decode (json.Array (j1 :: js)) (TSlice t) nil_slice saved =
  let '(xs, rest, saved') :=
    json.decode_elems (zero t)
      (map (fun j' => json.decode j' t) (j1 :: js)) [] [] saved in
  (mk_slice xs rest, saved').
Proof. reflexivity. Qed.

(** The elements of a slice, decoded one by one into zero values. *)
Lemma decode_elements (t : GoType) :
  (forall (v : value t) (j : json.Value) (saved : option error),
    json.canonical t v = true ->
    json.encode t v = Some j ->
    json.decode (json.read j) t (zero t) saved = (v, saved)) ->
  forall (xs : list (value t)) (js : list json.Value) (saved : option error),
    forallb (json.canonical t) xs = true ->
    json.sequence (map (json.encode t) xs) = Some js ->
    json.decode_elems (zero t)
      (map (fun j' => json.decode j' t) (map json.read js)) [] [] saved =
    (xs, [], saved).
Proof.
  intros Ht. induction xs as [|x xs IH]; intros js saved Hxs Hjs.
  - injection Hjs as <-. reflexivity.
  - cbn [forallb] in Hxs. apply andb_prop in Hxs. destruct Hxs as [Hx Hxs].
    cbn [map json.sequence] in Hjs.
    destruct (json.encode t x) as [j|] eqn:Hj; [|discriminate].
    destruct (json.sequence (map (json.encode t) xs)) as [js'|]; [|discriminate].
    injection Hjs as <-.
    cbn [map json.decode_elems].
    rewrite (Ht x j saved Hx Hj).
    rewrite (IH js' saved Hxs eq_refl). reflexivity.
Qed.

(** The fields of a struct: a field left out was [nil] and stays [nil]; a
    field written is found by its name and decoded; the members that
    follow belong to the fields that follow. *)
Lemma decode_struct (fs : list (StructField * GoType)) :
  Forall (fun p => json.recovered (snd p)) fs ->
  json.representable (TStruct fs) = true ->
  forall (v : value_fields fs) (ms : list (string * json.Value))
         (saved : option error),
    json.canonical (TStruct fs) v = true ->
    json.encode (TStruct fs) v = Some (json.Object ms) ->
    json.decode_members fs (map (fun '(key, j') => (key, json.decode j'))
       (map (fun '(key, j') => (json.readback key, json.read j')) ms)) (zero (TStruct fs)) saved = (v, saved).
Proof.
  induction 1 as [|[f t] fs Ht Hfs IH]; intros Hrep v ms saved Hv Hms.
  - destruct v. cbn in Hms. injection Hms as <-. reflexivity.
  - destruct v as [x r].
    destruct (representable_fields f t fs Hrep)
      as [Hdistinct [Hname [Homit [Hrept Hrepfs]]]].
    change (json.canonical (TStruct ((f, t) :: fs)) (x, r))
      with (json.canonical t x && json.canonical (TStruct fs) r) in Hv.
    apply andb_prop in Hv. destruct Hv as [Hx Hr].
    change (zero (TStruct ((f, t) :: fs))) with (zero t, zero (TStruct fs)).
    assert (Hrest : forall ms',
      json.encode (TStruct fs) r = Some (json.Object ms') ->
      forall y saved',
      json.decode_members ((f, t) :: fs) (map (fun '(key, j') => (key, json.decode j'))
       (map (fun '(key, j') => (json.readback key, json.read j')) ms'))
        (y, zero (TStruct fs)) saved' = ((y, r), saved')).
    { intros ms' Hms' y saved'.
      rewrite decode_members_rest.
      - rewrite (IH Hrepfs r ms' saved' Hr Hms'). reflexivity.
      - intros key Hkey.
        rewrite !map_map in Hkey. apply in_map_iff in Hkey.
        destruct Hkey as [[k j'] [<- Hin]]. cbn [fst].
        assert (Hk : In k (map (fun p => JSONName (fst p)) fs)).
        { apply (encode_names fs r ms' Hms'). apply in_map_iff.
          exists (k, j'). split; [reflexivity|exact Hin]. }
        assert (Hkk : json.readback k = k).
        { clear - Hrepfs Hk. induction fs as [|[g u] fs IH]; [destruct Hk|].
          destruct (representable_fields g u fs Hrepfs) as [_ [Hg [_ [_ Hfs]]]].
          destruct Hk as [<-|Hk]; [exact Hg|exact (IH Hfs Hk)]. }
        rewrite Hkk. split; [|exact Hk].
        exact (existsb_eqb _ _ Hdistinct k Hk). }
    rewrite encode_fields in Hms.
    destruct (OmitEmpty f && json.isEmptyValue t x) eqn:Hskip.
    + apply andb_prop in Hskip. destruct Hskip as [Hom Hempty].
      specialize (Homit Hom). destruct t; try discriminate Homit.
      destruct x; [discriminate Hempty|].
      exact (Hrest ms Hms _ saved).
    + destruct (json.encode t x) as [j|] eqn:Hj; [|discriminate].
      destruct (json.encode (TStruct fs) r) as [[| | | | |ms']|] eqn:Hr';
        try discriminate.
      injection Hms as <-.
      cbn [map json.decode_members]. rewrite Hname.
      unfold json.find_field at 1. cbn [json.index_where].
      rewrite String.eqb_refl. cbn [json.decode_field fst snd].
      cbn [snd] in Ht. rewrite (Ht Hrept x j saved Hx Hj).
      exact (Hrest ms' eq_refl x saved).
Qed.

(** What is written for a value decodes, into a zero value, to the value. *)
Lemma decode_encode (t : GoType) : json.recovered t.
Proof.
  induction t as [| | |t IH|t IH|fs IH|] using GoType_induction;
    intros Hrep v j saved Hv Hj.
  - injection Hj as <-. cbn. rewrite (readback_valid v Hv). reflexivity.
  - injection Hj as <-. cbn [json.read json.decode].
    rewrite (ParseInt_Itoa v Hv). reflexivity.
  - injection Hj as <-. reflexivity.
  - cbn [json.representable] in Hrep. apply andb_prop in Hrep.
    destruct Hrep as [Hnull Hrep].
    destruct v as [x|].
    + cbn [json.encode] in Hj. cbn [json.canonical] in Hv.
      rewrite decode_pointer by exact (encode_never_null t x j Hnull Hj).
      cbn [zero]. rewrite (IH Hrep x j saved Hv Hj). reflexivity.
    + injection Hj as <-. reflexivity.
  - cbn [json.representable] in Hrep.
    destruct v as [|xs spare].
    + injection Hj as <-. reflexivity.
    + cbn [json.canonical] in Hv. destruct spare; [|discriminate].
      cbn [json.encode] in Hj.
      destruct (json.sequence (map (json.encode t) xs)) as [js|] eqn:Hjs;
        [|discriminate].
      injection Hj as <-.
      pose proof (decode_elements t (IH Hrep) xs js saved Hv Hjs) as Helems.
      destruct js as [|j1 js].
      * destruct xs; [reflexivity|].
        cbn [map json.sequence] in Hjs.
        destruct (json.encode t v); [|discriminate].
        destruct (json.sequence (map (json.encode t) xs)); discriminate.
      * change (json.read (json.Array (j1 :: js)))
          with (json.Array (json.read j1 :: map json.read js)).
        change (zero (TSlice t)) with (@nil_slice (value t)).
        rewrite decode_array. cbn [map] in Helems |- *.
        rewrite Helems. reflexivity.
  - destruct (encode_struct fs v j Hj) as [ms ->].
    exact (decode_struct fs IH Hrep v ms saved Hv Hj).
  - discriminate.
Qed.

Lemma sequence_Forall {A B : Type} (f : A -> option B) (P : B -> Prop)
  (xs : list A) :
  (forall x y, In x xs -> f x = Some y -> P y) ->
  forall ys, json.sequence (map f xs) = Some ys -> Forall P ys.
Proof.
  induction xs as [|x xs IH]; intros Hf ys Hys.
  - injection Hys as <-. constructor.
  - cbn [map json.sequence] in Hys.
    destruct (f x) as [y|] eqn:Hy; [|discriminate].
    destruct (json.sequence (map f xs)) as [ys'|]; [|discriminate].
    injection Hys as <-. constructor.
    + apply (Hf x y); [left; reflexivity|exact Hy].
    + apply IH; [|reflexivity]. intros x' y' Hx'. apply Hf. right. exact Hx'.
Qed.

Lemma written_elems (js : list json.Value) :
  Forall json.written js -> json.written (json.Array js).
Proof.
  cbn [json.written]. induction 1; cbn [fold_right]; auto.
Qed.

Lemma depth_elems (js : list json.Value) (n : nat) :
  Forall (fun j => (json.depth j <= n)%nat) js ->
  (json.depth (json.Array js) <= S n)%nat.
Proof.
  cbn [json.depth]. induction 1; cbn [fold_right]; lia.
Qed.

(** What is written for a Go value holds integers only, and is nested no
    deeper than the type of the value. *)
Lemma encode_shape (t : GoType) :
  forall (v : value t) (j : json.Value),
    json.encode t v = Some j ->
    json.written j /\ (json.depth j <= json.nesting t)%nat.
Proof.
  induction t as [| | |t IH|t IH|fs IH|] using GoType_induction; intros v j Hj.
  - injection Hj as <-. split; [exact I|apply Nat.le_refl].
  - injection Hj as <-. split; [exists v; reflexivity|apply Nat.le_refl].
  - injection Hj as <-. split; [exact I|apply Nat.le_refl].
  - destruct v as [x|].
    + exact (IH x j Hj).
    + injection Hj as <-. split; [exact I|apply Nat.le_0_l].
  - destruct v as [|xs spare].
    + injection Hj as <-. split; [exact I|apply Nat.le_0_l].
    + cbn [json.encode] in Hj.
      destruct (json.sequence (map (json.encode t) xs)) as [js|] eqn:Hjs;
        [|discriminate].
      injection Hj as <-. split.
      * apply written_elems.
        apply (sequence_Forall (json.encode t) _ xs); [|exact Hjs].
        intros x y _ Hy. exact (proj1 (IH x y Hy)).
      * cbn [json.nesting]. apply depth_elems.
        apply (sequence_Forall (json.encode t) _ xs); [|exact Hjs].
        intros x y _ Hy. exact (proj2 (IH x y Hy)).
  - revert v j Hj. induction IH as [|[f t] fs Ht Hfs IHfs]; intros v j Hj.
    + cbn in Hj. injection Hj as <-. split; [exact I|apply Nat.le_refl].
    + destruct v as [x r]. rewrite encode_fields in Hj.
      change (json.nesting (TStruct ((f, t) :: fs)))
        with (S (Nat.max (json.nesting t) (pred (json.nesting (TStruct fs))))).
      assert (Hfs' : forall ms, json.encode (TStruct fs) r = Some (json.Object ms) ->
                json.written (json.Object ms) /\
                (json.depth (json.Object ms) <=
                 S (pred (json.nesting (TStruct fs))))%nat).
      { intros ms Hms. exact (IHfs r _ Hms). }
      destruct (OmitEmpty f && json.isEmptyValue t x).
      * destruct (encode_struct fs r j Hj) as [ms ->].
        destruct (Hfs' ms Hj) as [Hw Hd]. split; [exact Hw|].
        apply (Nat.le_trans _ _ _ Hd), le_n_S, Nat.le_max_r.
      * destruct (json.encode t x) as [jx|] eqn:Hjx; [|discriminate].
        destruct (json.encode (TStruct fs) r) as [[| | | | |ms]|] eqn:Hr;
          try discriminate.
        injection Hj as <-.
        destruct (Hfs' ms eq_refl) as [Hw Hd].
        destruct (Ht x jx Hjx) as [Hwx Hdx].
        split.
        -- cbn [json.written fold_right snd] in Hw |- *. split; assumption.
        -- cbn [json.depth fold_right snd] in Hd |- *.
           apply le_n_S, Nat.max_le_compat; [exact Hdx|apply le_S_n, Hd].
  - discriminate.
Qed.

(** A value of a representable type is written. *)
Lemma encode_representable (t : GoType) :
  json.representable t = true ->
  forall v : value t, json.encode t v <> None.
Proof.
  induction t as [| | |t IH|t IH|fs IH|] using GoType_induction;
    intros Hrep v; try discriminate.
  - cbn [json.representable] in Hrep. apply andb_prop in Hrep.
    destruct v as [x|]; [exact (IH (proj2 Hrep) x)|discriminate].
  - cbn [json.representable] in Hrep.
    destruct v as [|xs spare]; [discriminate|]. cbn [json.encode].
    assert (H : json.sequence (map (json.encode t) xs) <> None).
    { induction xs as [|x xs IHxs]; [discriminate|]. cbn [map json.sequence].
      pose proof (IH Hrep x) as Hx.
      destruct (json.encode t x) eqn:Ex; [|congruence].
      destruct (json.sequence (map (json.encode t) xs)) eqn:Exs;
        [discriminate|congruence]. }
    destruct (json.sequence (map (json.encode t) xs)) eqn:Exs;
      [discriminate|congruence].
  - revert v. induction IH as [|[f t] fs Ht Hfs IHfs]; intros v.
    + discriminate.
    + destruct v as [x r]. rewrite encode_fields.
      destruct (representable_fields f t fs Hrep) as [_ [_ [_ [Hrept Hrepfs]]]].
      cbn [snd] in Ht.
      pose proof (IHfs Hrepfs r) as Hr. pose proof (Ht Hrept x) as Hx.
      destruct (OmitEmpty f && json.isEmptyValue t x); [exact Hr|].
      destruct (json.encode t x) eqn:Ex; [|congruence].
      destruct (json.encode (TStruct fs) r) as [j|] eqn:Hj; [|congruence].
      destruct (encode_struct fs r j Hj) as [ms ->]. discriminate.
Qed.

(** Round trip: what [json.Marshal] writes for a value, with or without a
    line feed after it, is decoded by [json.Unmarshal] into a zero value as
    that value. *)
Lemma Unmarshal_Marshal (t : GoType) (v : value t) :
  json.representable t = true ->
  (N.of_nat (json.nesting t) <= json.maxNestingDepth)%N ->
  json.canonical t v = true ->
  snd (json.Marshal t v) = None /\
  json.Unmarshal t (fst (json.Marshal t v)) (zero t) = (v, None) /\
  json.Unmarshal t (fst (json.Marshal t v) ++ nl) (zero t) = (v, None).
Proof.
  intros Hrep Hnest Hv. unfold json.Marshal.
  pose proof (encode_representable t Hrep v) as Hsome.
  destruct (json.encode t v) as [j|] eqn:Hj; [clear Hsome|congruence].
  destruct (encode_shape t v j Hj) as [Hw Hd].
  destruct (parse_text j Hw) as [H1 H2]; [lia|].
  cbn [fst snd]. split; [reflexivity|].
  rewrite (Unmarshal_parsed _ _ _ _ H1), (Unmarshal_parsed _ _ _ _ H2).
  rewrite (decode_encode t Hrep v j None Hv Hj). split; reflexivity.
Qed.

(** The response types and the parameter types of [src/Types.go] are
    representable, and nested far below the limit of the parser. *)
Lemma response_types (op : Operation) :
  json.representable (ResponseType op) = true /\
  (N.of_nat (json.nesting (ResponseType op)) <= json.maxNestingDepth)%N.
Proof. destruct op; split; vm_compute; try reflexivity; discriminate. Qed.

Lemma params_types (op : Operation) :
  json.representable (ParamsType op) = true /\
  (N.of_nat (json.nesting (ParamsType op)) <= json.maxNestingDepth)%N.
Proof. destruct op; split; vm_compute; try reflexivity; discriminate. Qed.

Lemma below_400 (status : Z) : status < 400 -> (400 <=? status) = false.
Proof. intros H. apply Z.leb_nle. lia. Qed.

(* ------------------------------------------------------------------ *)
(** * What a server writes, the client returns *)

(** X1. Round trip of a response.  For every operation and every value [v]
    of its response type that is canonical: when the server answers with
    a status below 400 and the body [json.Marshal] writes for [v], with
    or without the line feed [json.Encoder] ends its output with, the
    operation returns a pointer to [v] and a [nil] error. *)
Theorem served_response_is_returned (w : World) (c : Client) (op : Operation)
  (req : http.Request) (resp : http.Response) (v : value (ResponseType op)) :
  json.canonical (ResponseType op) v = true ->
  In (req, ok resp) (sent w c op) ->
  http.StatusCode resp < 400 ->
  http.Body resp = (fst (json.Marshal (ResponseType op) v), None) \/
  http.Body resp = (fst (json.Marshal (ResponseType op) v) ++ nl, None) ->
  response_of w c op = Some v /\ error_of w c op = None.
Proof.
  intros Hv Hsent Hstatus Hbody.
  destruct (response_types op) as [Hrep Hnest].
  destruct (Unmarshal_Marshal _ v Hrep Hnest Hv) as [_ [H1 H2]].
  unfold response_of, error_of.
  destruct Hbody as [Hbody|Hbody];
    rewrite (call_response w c op _ _ _ _ _ (run_pair _ _) Hsent Hbody);
    cbn [fst snd]; unfold spec_classify; rewrite (below_400 _ Hstatus);
    [rewrite H1|rewrite H2]; split; reflexivity.
Qed.

Lemma served_response_is_returned_witness :
  response_of
    (server 200 (fst (json.Marshal GetAllCustomersResponse sample_customers)
                 ++ nl))
    sample_client opGetAllCustomers = Some sample_customers
  /\
  error_of
    (server 200 (fst (json.Marshal GetAllCustomersResponse sample_customers)
                 ++ nl))
    sample_client opGetAllCustomers = None.
Proof.
  refine (served_response_is_returned
            (server 200
               (fst (json.Marshal GetAllCustomersResponse sample_customers)
                ++ nl))
            sample_client opGetAllCustomers _
            {| http.StatusCode := 200;
               http.Body :=
                 (fst (json.Marshal GetAllCustomersResponse sample_customers)
                  ++ nl, None) |}
            sample_customers _ _ _ _).
  - reflexivity.
  - left. reflexivity.
  - cbn. lia.
  - right. reflexivity.
Defined.

(** X2. Round trip of an error.  For every operation and every [ApiError]
    [e] that is canonical and whose message is not empty: when the server
    answers with a status of 400 or more and the body [json.Marshal]
    writes for [e], with or without a line feed after it, the operation
    returns the zero response and an error with the message and the code
    of [e]; its status is the status of the response, whatever status [e]
    itself holds. *)
Theorem served_error_is_returned (w : World) (c : Client) (op : Operation)
  (req : http.Request) (resp : http.Response) (e : value ApiError) :
  json.canonical ApiError e = true ->
  Message e <> "" ->
  In (req, ok resp) (sent w c op) ->
  400 <= http.StatusCode resp ->
  http.Body resp = (fst (json.Marshal ApiError e), None) \/
  http.Body resp = (fst (json.Marshal ApiError e) ++ nl, None) ->
  response_of w c op = Some (zero (ResponseType op)) /\
  error_of w c op =
  Some (mkApiError (Message e) (Code e) (Some (http.StatusCode resp))).
Proof.
  intros He HM Hsent Hstatus Hbody.
  assert (Hrep : json.representable ApiError = true) by reflexivity.
  assert (Hnest : (N.of_nat (json.nesting ApiError) <= json.maxNestingDepth)%N)
    by (vm_compute; discriminate).
  destruct (Unmarshal_Marshal _ e Hrep Hnest He) as [_ [H1 H2]].
  apply Z.leb_le in Hstatus.
  unfold response_of, error_of.
  destruct Hbody as [Hbody|Hbody];
    rewrite (call_response w c op _ _ _ _ _ (run_pair _ _) Hsent Hbody);
    cbn [fst snd]; unfold spec_classify; rewrite Hstatus;
    [rewrite H1|rewrite H2];
    (destruct (String.eqb_spec (Message e) "") as [E|_]; [contradiction|]);
    split; reflexivity.
Qed.

Lemma served_error_is_returned_witness :
  error_of
    (server 404 (fst (json.Marshal ApiError sample_error) ++ nl))
    sample_client (opGetKey ("p1", ("KEY-1", tt)))
  = Some (mkApiError "License key not found" 404 (Some 404)).
Proof.
  refine (proj2 (served_error_is_returned
            (server 404 (fst (json.Marshal ApiError sample_error) ++ nl))
            sample_client (opGetKey ("p1", ("KEY-1", tt))) _
            {| http.StatusCode := 404;
               http.Body :=
                 (fst (json.Marshal ApiError sample_error) ++ nl, None) |}
            sample_error _ _ _ _ _)).
  - reflexivity.
  - discriminate.
  - left. reflexivity.
  - cbn. lia.
  - right. reflexivity.
Defined.

(* ------------------------------------------------------------------ *)
(** * The body of a request *)

(** X3. Round trip of the arguments.  For every operation that sends a
    body, and every argument that is canonical (its strings are
    well-formed UTF-8): the body of the request sent, decoded by
    [json.Unmarshal] into a zero value of the parameter type, gives the
    argument of the call and no error.  An optional field that points to
    an empty string or to [false] is recovered as such, and one that is
    [nil] as [nil]. *)
Theorem sent_body_decodes_to_arguments (w : World) (c : Client)
  (op : Operation) (req : http.Request) (answer : result http.Response)
  (data : string) :
  json.canonical (ParamsType op) (params_of op) = true ->
  In (req, answer) (sent w c op) ->
  http.Payload req = Some data ->
  json.Unmarshal (ParamsType op) data (zero (ParamsType op))
  = (params_of op, None).
Proof.
  intros Hp Hsent Hdata.
  destruct (call_log w c op _ _ (run_pair _ _))
    as [E|(r & a & E & _ & _ & _ & _ & H)];
    unfold sent in Hsent; rewrite E in Hsent; [destruct Hsent|].
  destruct Hsent as [[= <- <-]|[]]. rewrite Hdata in H.
  destruct (params_types op) as [Hrep Hnest].
  destruct (Unmarshal_Marshal _ (params_of op) Hrep Hnest Hp) as [_ [Hround _]].
  destruct op; cbn [spec_payload] in H; try discriminate H;
    injection H as ->; exact Hround.
Qed.

Lemma sent_body_decodes_to_arguments_witness :
  json.Unmarshal UpdateCustomerParams
    (js "{'customerId':'c1','email':'','active':false}")
    (zero UpdateCustomerParams)
  = (("c1", (None, (Some "", (Some false, tt)))), None).
Proof.
  refine (sent_body_decodes_to_arguments unreachable sample_client
            (opUpdateCustomer ("c1", (None, (Some "", (Some false, tt)))))
            {| http.Method := "PUT";
               http.URL := "http://127.0.0.1:8080/customer/by-id";
               http.AddedQuery := None;
               http.Header := [ ("Content-Type", "application/json");
                                ("Authorization", "Bearer test-token") ];
               http.Payload :=
                 Some (js "{'customerId':'c1','email':'','active':false}") |}
            (failed (errorString "connection refused")) _ _ _ _).
  - reflexivity.
  - left. reflexivity.
  - reflexivity.
Defined.

(** X4. Whatever the argument of an operation, also when its strings are
    not well-formed UTF-8, the body of the request sent is one valid JSON
    text, and the text of an object. *)
Theorem sent_body_is_valid_json (w : World) (c : Client) (op : Operation)
  (req : http.Request) (answer : result http.Response) (data : string) :
  In (req, answer) (sent w c op) ->
  http.Payload req = Some data ->
  exists ms, json.parse data = Some (json.Object ms).
Proof.
  intros Hsent Hdata.
  destruct (call_log w c op _ _ (run_pair _ _))
    as [E|(r & a & E & _ & _ & _ & _ & H)];
    unfold sent in Hsent; rewrite E in Hsent; [destruct Hsent|].
  destruct Hsent as [[= <- <-]|[]]. rewrite Hdata in H.
  assert (Hdata' : data = fst (json.Marshal (ParamsType op) (params_of op)))
    by (destruct op; cbn [spec_payload] in H; try discriminate H;
        injection H as ->; reflexivity).
  destruct (params_types op) as [Hrep Hnest].
  pose proof (encode_representable _ Hrep (params_of op)) as Hsome.
  unfold json.Marshal in Hdata'.
  destruct (json.encode (ParamsType op) (params_of op)) as [j|] eqn:Hj;
    [|congruence].
  cbn [fst] in Hdata'. subst data.
  destruct (encode_shape _ _ _ Hj) as [Hw Hd].
  assert (Hobject : exists ms, j = json.Object ms).
  { destruct op; cbn [ParamsType params_of] in Hj;
      exact (encode_struct _ _ _ Hj). }
  destruct Hobject as [ms ->].
  destruct (parse_text _ Hw) as [Hparse _]; [lia|].
  rewrite Hparse. eexists. reflexivity.
Qed.

Lemma sent_body_is_valid_json_witness :
  exists ms,
    json.parse
      (fst (json.Marshal CreateCustomerParams
              (String "255"%char "da", ("a@b.com", tt))))
    = Some (json.Object ms).
Proof.
  refine (sent_body_is_valid_json unreachable sample_client
            (opCreateCustomer (String "255"%char "da", ("a@b.com", tt)))
            {| http.Method := "POST";
               http.URL := "http://127.0.0.1:8080/customer";
               http.AddedQuery := None;
               http.Header := [ ("Content-Type", "application/json");
                                ("Authorization", "Bearer test-token") ];
               http.Payload :=
                 Some (fst (json.Marshal CreateCustomerParams
                              (String "255"%char "da", ("a@b.com", tt)))) |}
            (failed (errorString "connection refused")) _ _ _).
  - left. reflexivity.
  - reflexivity.
Defined.

(* ------------------------------------------------------------------ *)
(** * Bodies received with a status below 400 *)

(** X5. For every operation: when a response with a status below 400 is
    received (1xx and 3xx included), its body is read, and
    [json.Unmarshal] decodes the body into the response type without an
    error, the operation returns a pointer to the decoded value and a
    [nil] error. *)
Theorem decoded_body_is_returned (w : World) (c : Client) (op : Operation)
  (req : http.Request) (resp : http.Response) (body : string)
  (decoded : value (ResponseType op)) :
  In (req, ok resp) (sent w c op) ->
  http.Body resp = (body, None) ->
  http.StatusCode resp < 400 ->
  json.Unmarshal (ResponseType op) body (zero (ResponseType op))
  = (decoded, None) ->
  response_of w c op = Some decoded /\ error_of w c op = None.
Proof.
  intros Hsent Hbody Hstatus Hdec.
  unfold response_of, error_of.
  rewrite (call_response w c op _ _ _ _ _ (run_pair _ _) Hsent Hbody).
  cbn [fst snd]. unfold spec_classify.
  rewrite (below_400 _ Hstatus), Hdec. split; reflexivity.
Qed.

Lemma decoded_body_is_returned_witness :
  response_of (server 302 (js "{'message':'moved','code':7}")) sample_client
    (opBlockKey ("p1", ("KEY-1", tt)))
  = Some ("moved", (7, tt))
  /\
  error_of (server 302 (js "{'message':'moved','code':7}")) sample_client
    (opBlockKey ("p1", ("KEY-1", tt)))
  = None.
Proof.
  refine (decoded_body_is_returned
            (server 302 (js "{'message':'moved','code':7}")) sample_client
            (opBlockKey ("p1", ("KEY-1", tt))) _
            {| http.StatusCode := 302;
               http.Body := (js "{'message':'moved','code':7}", None) |}
            (js "{'message':'moved','code':7}") ("moved", (7, tt)) _ _ _ _).
  - left. reflexivity.
  - reflexivity.
  - cbn. lia.
  - vm_compute. reflexivity.
Defined.

(** X6. Bodies without content, received with a status below 400.  A body
    that is the JSON text [null], or an object without members, is a
    success: the operation returns the zero value of its response type
    and a [nil] error.  A body of no bytes at all, as a response with
    status 204 has, is an error: the operation returns the zero value and
    the error ["failed to unmarshal response: ..."], with code -1 and the
    status received. *)
Theorem bodies_without_content (w : World) (c : Client) (op : Operation)
  (req : http.Request) (resp : http.Response) (body : string) :
  In (req, ok resp) (sent w c op) ->
  http.Body resp = (body, None) ->
  http.StatusCode resp < 400 ->
  (json.parse body = Some json.Null \/ json.parse body = Some (json.Object []) ->
   response_of w c op = Some (zero (ResponseType op)) /\
   error_of w c op = None)
  /\
  (body = "" ->
   response_of w c op = Some (zero (ResponseType op)) /\
   error_of w c op =
   Some (mkApiError ("failed to unmarshal response: " ++ text_of w SyntaxError)
           (-1) (Some (http.StatusCode resp)))).
Proof.
  intros Hsent Hbody Hstatus.
  unfold response_of, error_of.
  rewrite (call_response w c op _ _ _ _ _ (run_pair _ _) Hsent Hbody).
  cbn [fst snd]. unfold spec_classify. rewrite (below_400 _ Hstatus).
  split.
  - intros [H|H]; rewrite (Unmarshal_parsed _ _ _ _ H);
      destruct op; split; reflexivity.
  - intros ->. rewrite Unmarshal_invalid by reflexivity. split; reflexivity.
Qed.

Lemma bodies_without_content_witness :
  (response_of (server 200 " null ") sample_client (opDeleteCustomer ("c1", tt))
   = Some (zero DeleteCustomerResponse) /\
   error_of (server 200 " null ") sample_client (opDeleteCustomer ("c1", tt))
   = None)
  /\
  (response_of (server 204 "") sample_client (opDeleteCustomer ("c1", tt))
   = Some (zero DeleteCustomerResponse) /\
   error_of (server 204 "") sample_client (opDeleteCustomer ("c1", tt))
   = Some (mkApiError
             "failed to unmarshal response: invalid character in JSON input"
             (-1) (Some 204))).
Proof.
  split.
  - refine (proj1 (bodies_without_content (server 200 " null ") sample_client
                     (opDeleteCustomer ("c1", tt)) _
                     {| http.StatusCode := 200;
                        http.Body := (" null ", None) |} " null " _ _ _) _).
    + left. reflexivity.
    + reflexivity.
    + cbn. lia.
    + left. vm_compute. reflexivity.
  - refine (proj2 (bodies_without_content (server 204 "") sample_client
                     (opDeleteCustomer ("c1", tt)) _
                     {| http.StatusCode := 204;
                        http.Body := ("", None) |} "" _ _ _) _).
    + left. reflexivity.
    + reflexivity.
    + cbn. lia.
    + reflexivity.
Defined.

(** A member whose key selects no field changes nothing. *)
Lemma decode_members_unmatched (fs : list (StructField * GoType))
  (key : string) (dec : json.decoder) (ms1 ms2 : list (string * json.decoder)) :
  json.find_field key fs = None ->
  forall (v : value (TStruct fs)) (saved : option error),
    json.decode_members fs (ms1 ++ (key, dec) :: ms2) v saved =
    json.decode_members fs (ms1 ++ ms2) v saved.
Proof.
  intros Hkey. induction ms1 as [|[k d] ms1 IH]; intros v saved.
  - cbn [app json.decode_members]. rewrite Hkey. reflexivity.
  - cbn [app json.decode_members].
    destruct (json.find_field k fs) as [i|]; [|apply IH].
    destruct (json.decode_field d fs i v saved) as [v' saved']. apply IH.
Qed.

(** X7. A member the response type has no field for is ignored.  For every
    operation and every status below 400: a server that answers with an
    object holding a member whose key is the name of no field of the
    response type, not even up to case, makes the operation return the
    same response and the same error as a server that answers with the
    object without that member. *)
Theorem unmatched_member_is_ignored (c : Client) (op : Operation)
  (status : Z) (body body' : string) (ms1 ms2 : list (string * json.Value))
  (key : string) (j : json.Value) :
  status < 400 ->
  json.parse body = Some (json.Object (ms1 ++ (key, j) :: ms2)) ->
  json.parse body' = Some (json.Object (ms1 ++ ms2)) ->
  (forall fs, ResponseType op = TStruct fs -> json.find_field key fs = None) ->
  fst (run (server status body) (call c op)) =
  fst (run (server status body') (call c op)).
Proof.
  intros Hstatus Hbody Hbody' Hkey.
  rewrite !run_call. unfold spec_call, spec_send, server.
  cbn [check_request round_trip http.Body http.StatusCode].
  unfold spec_classify. rewrite (below_400 _ Hstatus).
  rewrite (Unmarshal_parsed _ _ _ _ Hbody), (Unmarshal_parsed _ _ _ _ Hbody').
  assert (Hdec : forall v saved,
    json.decode (json.Object (ms1 ++ (key, j) :: ms2)) (ResponseType op) v saved
    = json.decode (json.Object (ms1 ++ ms2)) (ResponseType op) v saved).
  { destruct op; cbn [ResponseType] in *; intros v saved;
      match goal with
      | |- json.decode _ ?T _ _ = _ =>
        let T' := eval hnf in T in change T with T' in *
      end;
      match goal with
      | |- json.decode _ (TStruct ?fs) _ _ = _ =>
        specialize (Hkey fs eq_refl);
        change (json.decode_members fs
                  (map (fun '(key, j') => (key, json.decode j'))
                     (ms1 ++ (key, j) :: ms2)) v saved =
                json.decode_members fs
                  (map (fun '(key, j') => (key, json.decode j'))
                     (ms1 ++ ms2)) v saved)
      end;
      rewrite !map_app; cbn [map];
      apply decode_members_unmatched, Hkey. }
  rewrite Hdec. unfold text_of. cbn [error_text].
  destruct (json.decode _ (ResponseType op) _ None) as [decoded [err|]];
    reflexivity.
Qed.

Lemma unmatched_member_is_ignored_witness :
  fst (run (server 200 (js "{'code':0,'requestId':'r-1','key':'K-1'}"))
         (call sample_client
            (opCreateKey ("p1", (None, (None, (None, (None, tt))))))))
  = fst (run (server 200 (js "{'code':0,'key':'K-1'}"))
           (call sample_client
              (opCreateKey ("p1", (None, (None, (None, (None, tt)))))))).
Proof.
  refine (unmatched_member_is_ignored sample_client
            (opCreateKey ("p1", (None, (None, (None, (None, tt))))))
            200
            (js "{'code':0,'requestId':'r-1','key':'K-1'}")
            (js "{'code':0,'key':'K-1'}")
            [ ("code", json.Number "0") ] [ ("key", json.Str "K-1") ]
            "requestId" (json.Str "r-1") _ _ _ _).
  - lia.
  - vm_compute. reflexivity.
  - vm_compute. reflexivity.
  - intros fs [= <-]. vm_compute. reflexivity.
Defined.

(* ------------------------------------------------------------------ *)
(** * The request of an operation *)

(** The requests a call sends: none when [http.NewRequest] refuses the
    URL, else the one request of the operation. *)
Lemma call_request (w : World) (c : Client) (op : Operation) :
  sent w c op =
  match check_request w (spec_verb op) (baseURL c ++ spec_path op) with
  | Some _ => []
  | None =>
    let req :=
      {| http.Method := spec_verb op;
         http.URL := baseURL c ++ spec_path op;
         http.AddedQuery := spec_query op;
         http.Header := [ ("Content-Type", "application/json");
                          ("Authorization", "Bearer " ++ accessToken c) ];
         http.Payload := spec_payload op |} in
    [(req, round_trip w req)]
  end.
Proof.
  unfold sent. rewrite run_call. unfold spec_call, spec_send.
  destruct (check_request w _ _); [reflexivity|]. cbv zeta.
  match goal with
  | |- context [round_trip w ?r] => set (req := r)
  end.
  destruct (round_trip w req) as [[status [body [err|]]]|err];
    cbn [http.Body http.StatusCode];
    try match goal with
        | |- context [spec_classify ?w ?t ?r ?s ?b] =>
          destruct (spec_classify w t r s b)
        end;
    reflexivity.
Qed.



(** X9. Every request of every operation carries two headers and no
    other: [Authorization], with the value ["Bearer "] followed by the
    access token of the client, and [Content-Type], with the value
    [application/json], also when the request has no body.  The access
    token of a client made by [New] is the token [New] was given, and the
    timeout of its HTTP client is 30 seconds. *)
Theorem request_headers (c : Client) (op : Operation) :
  (forall w req answer,
      In (req, answer) (sent w c op) ->
      forall key val,
        In (key, val) (http.Header req) <->
        (key, val) = ("Authorization", "Bearer " ++ accessToken c) \/
        (key, val) = ("Content-Type", "application/json"))
  /\
  (forall token base,
      New token base = (Some c, None) ->
      accessToken c = token /\ http.Timeout (httpClient c) = 30 * Second).
Proof.
  split.
  - intros w req answer Hin key val. rewrite call_request in Hin.
    destruct (check_request w _ _); [destruct Hin|].
    destruct Hin as [[= <- _]|[]]. cbn [http.Header In].
    split; [intros [H|[H|[]]]|intros [H|H]]; auto.
  - intros token base. unfold New.
    destruct (String.eqb token ""); [discriminate|].
    intros [= <-]. split; reflexivity.
Qed.

Lemma request_headers_witness :
  (In ("Authorization", "Bearer test-token")
      [ ("Content-Type", "application/json");
        ("Authorization", "Bearer test-token") ] <->
   ("Authorization", "Bearer test-token")
   = ("Authorization", "Bearer " ++ accessToken sample_client) \/
   ("Authorization", "Bearer test-token") = ("Content-Type", "application/json"))
  /\
  accessToken sample_client = "test-token" /\
  http.Timeout (httpClient sample_client) = 30 * Second.
Proof.
  split.
  - refine (proj1 (request_headers sample_client opGetAllCustomers)
              unreachable
              {| http.Method := "GET";
                 http.URL := "http://127.0.0.1:8080/customer";
                 http.AddedQuery := None;
                 http.Header := [ ("Content-Type", "application/json");
                                  ("Authorization", "Bearer test-token") ];
                 http.Payload := None |}
              (failed (errorString "connection refused")) _ _ _).
    left. reflexivity.
  - exact (proj2 (request_headers sample_client opGetAllCustomers)
             "test-token" "http://127.0.0.1:8080" eq_refl).
Defined.

(** X10. The request of each operation has the method of the operation
    ([POST], [PUT], [GET] or [DELETE]); its body is the argument as
    [json.Marshal] writes it, for the operations that send one; its query
    holds the parameters of the operation, for those that send them: the
    product and the license key for [GetKey], the customer for
    [GetCustomerWithKeys], [DeleteCustomer] and [GetCustomerById].  A
    request has no body exactly when its method is [GET] or [DELETE], and
    none has both a body and query parameters. *)
Theorem request_of_each_operation (w : World) (c : Client) (op : Operation)
  (req : http.Request) (answer : result http.Response) :
  In (req, answer) (sent w c op) ->
  http.Method req = spec_verb op /\
  http.AddedQuery req = spec_query op /\
  http.Payload req = spec_payload op /\
  (http.Payload req = None <->
   http.Method req = "GET" \/ http.Method req = "DELETE") /\
  (http.Payload req = None \/ http.AddedQuery req = None).
Proof.
  intros Hin. rewrite call_request in Hin.
  destruct (check_request w _ _); [destruct Hin|].
  destruct Hin as [[= <- _]|[]].
  cbn [http.Method http.AddedQuery http.Payload].
  repeat split; destruct op; cbn; auto; try discriminate;
    intros [H|H]; discriminate H.
Qed.

Lemma request_of_each_operation_witness :
  http.Method
    {| http.Method := "DELETE";
       http.URL := "http://127.0.0.1:8080/customer/by-id";
       http.AddedQuery := Some [ ("customerId", "c1") ];
       http.Header := [ ("Content-Type", "application/json");
                        ("Authorization", "Bearer test-token") ];
       http.Payload := None |} = "DELETE".
Proof.
  refine (proj1 (request_of_each_operation unreachable sample_client
                   (opDeleteCustomer ("c1", tt)) _
                   (failed (errorString "connection refused")) _)).
  left. reflexivity.
Defined.

(* ------------------------------------------------------------------ *)
(** * The status of an error *)

(** X11. The status of the error an operation returns is the status of the
    response it received, whatever the body says, and [nil] when it
    received no response; and an error returned without a response has
    code -1. *)
Theorem error_status_is_the_status_received (w : World) (c : Client)
  (op : Operation) (e : value ApiError) :
  error_of w c op = Some e ->
  Status e =
  match sent w c op with
  | [(_, ok resp)] => Some (http.StatusCode resp)
  | _ => None
  end
  /\
  ((forall req resp, ~ In (req, ok resp) (sent w c op)) -> Code e = -1).
Proof.
  unfold error_of, sent. rewrite run_call. unfold spec_call, spec_send.
  destruct (check_request w _ _).
  { intros [= <-]. split; reflexivity. }
  match goal with
  | |- context [round_trip w ?r] => set (req := r)
  end.
  destruct (round_trip w req) as [[status [body [err|]]]|err];
    cbn [http.Body http.StatusCode].
  - intros [= <-]. split; [reflexivity|]. intros H.
    exfalso. eapply H. left. reflexivity.
  - unfold spec_classify.
    destruct (400 <=? status).
    + destruct (json.Unmarshal ApiError body (zero ApiError)) as [apiErr [err|]];
        [|destruct (String.eqb (Message apiErr) "")];
        intros [= <-]; (split; [reflexivity|]); intros H;
        exfalso; eapply H; left; reflexivity.
    + destruct (json.Unmarshal (ResponseType op) body (zero (ResponseType op)))
        as [decoded [err|]]; [|discriminate].
      intros [= <-]. split; [reflexivity|]. intros H.
      exfalso. eapply H. left. reflexivity.
  - intros [= <-]. split; reflexivity.
Qed.

Lemma error_status_is_the_status_received_witness :
  Status (mkApiError "failed to read response: unexpected EOF" (-1) (Some 200))
  = Some 200.
Proof.
  exact (proj1 (error_status_is_the_status_received (broken_off 200)
                  sample_client (opDeleteCustomer ("12345", tt))
                  (mkApiError "failed to read response: unexpected EOF" (-1)
                     (Some 200)) eq_refl)).
Defined.
